(** * Bit-packed output stream and database options of m3db

    A shallow embedding of [encoding/ostream.go] (the [ostream] type and its
    methods) and of the options constructor of package [storage]
    ([NewDatabaseOptions] and the setters and getters of [dbOptions]).

    Go slices are modelled with an explicit store of backing arrays, because
    [Clone] copies the slice header and so shares the backing array between
    the original and the clone. *)

From Stdlib Require Import ZArith Lia Bool.
From stdpp Require Import base numbers list strings.

Local Open Scope Z_scope.

(** ** Outcomes of a Go computation *)

Inductive result (A : Type) : Type :=
| Ok (a : A)
| Panic
| OutOfFuel.
Arguments Ok {A} a.
Arguments Panic {A}.
Arguments OutOfFuel {A}.

(** ** Machine integers *)

Definition to_byte (x : Z) : Z := x mod 256.
Definition to_uint64 (x : Z) : Z := x mod 2 ^ 64.
(** [uint(x)] for an [int] x on a 64-bit platform. *)
Definition uint (x : Z) : Z := x mod 2 ^ 64.

Definition is_byte (x : Z) : Prop := 0 <= x < 256.
Definition is_uint64 (x : Z) : Prop := 0 <= x < 2 ^ 64.
Definition is_int (x : Z) : Prop := - 2 ^ 63 <= x < 2 ^ 63.

(** ** Go slices over a store of backing arrays *)

Module GoSlice.

(** The store: backing arrays of bytes, named by allocation number. *)
Abbreviation heap := (list (list Z)).

(** A slice header: the backing array ([None] for the nil slice), the
    offset of the slice's first element in it, length and capacity. *)
Record slice := Slice { base : option nat; off : nat; len : nat; cap : nat }.

Definition nil_slice : slice := Slice None 0 0 0.

(** A computation over the store. *)
Definition M (A : Type) : Type := heap -> result (A * heap).

Definition ret {A} (a : A) : M A := fun h => Ok (a, h).
Definition bind {A B} (m : M A) (k : A -> M B) : M B :=
  fun h => match m h with
           | Ok (a, h') => k a h'
           | Panic => Panic
           | OutOfFuel => OutOfFuel
           end.
Definition out_of_fuel {A} : M A := fun _ => OutOfFuel.

Definition backing (h : heap) (s : slice) : list Z :=
  match base s with
  | Some a => default [] (h !! a)
  | None => []
  end.

(** The elements [s[0], ..., s[len(s)-1]]. *)
Definition view (h : heap) (s : slice) : list Z :=
  take (len s) (drop (off s) (backing h s)).

(** Element [i] of array [a], when there is one. *)
Definition cell (h : heap) (a i : nat) : option Z :=
  match h !! a with
  | Some arr => arr !! i
  | None => None
  end.

(** Overwrite element [i] of array [a]. *)
Definition poke (a i : nat) (v : Z) (h : heap) : heap :=
  alter (fun arr => <[i := v]> arr) a h.

(** [s[i]], with Go's bounds check against [len(s)]. *)
Definition load (s : slice) (i : Z) : M Z :=
  fun h =>
    if (0 <=? i) && (i <? Z.of_nat (len s))
    then Ok (default 0 (backing h s !! (off s + Z.to_nat i)%nat), h)
    else Panic.

(** [s[i] = v], with the same bounds check. *)
Definition store (s : slice) (i : Z) (v : Z) : M unit :=
  fun h =>
    if (0 <=? i) && (i <? Z.of_nat (len s))
    then match base s with
         | Some a => Ok (tt, poke a (off s + Z.to_nat i) v h)
         | None => Ok (tt, h)
         end
    else Panic.

(** [make([]byte, 0, c)]: a fresh zeroed array. *)
Definition make0 (c : nat) : M slice :=
  fun h => Ok (Slice (Some (length h)) 0 0 c, h ++ [replicate c 0]).

Section Append.
(** The capacity the runtime picks when [append] has to reallocate a
    slice of the given capacity; it is at least one more than the
    length, which [go_append] enforces below. *)
Variable growcap : nat -> nat.

(** [append(s, v)]: in place when there is spare capacity, otherwise
    into a fresh array holding a copy of [s]. *)
Definition go_append (s : slice) (v : Z) : M slice :=
  fun h =>
    if (len s <? cap s)%nat
    then match base s with
         | Some a =>
             Ok (Slice (base s) (off s) (S (len s)) (cap s),
                 poke a (off s + len s) v h)
         | None => Ok (Slice (base s) (off s) (S (len s)) (cap s), h)
         end
    else
      let c := Nat.max (S (len s)) (growcap (cap s)) in
      Ok (Slice (Some (length h)) 0 (S (len s)) c,
          h ++ [view h s ++ v :: replicate (c - S (len s)) 0]).
End Append.

End GoSlice.
Export GoSlice.

Notation "x <- m ; k" := (bind m (fun x => k))
  (at level 20, m at level 100, k at level 200, only parsing).
Notation "' pat <- m ; k" := (bind m (fun x => match x with pat => k end))
  (at level 20, pat pattern, m at level 100, k at level 200, only parsing).

(** ** The output stream, [encoding/ostream.go] *)

Module OStream.

Definition initAllocSize : nat := 1024.

(** A [pool.BytesPool] is an interface value of a package outside this
    development; only whether the field is nil matters to [grow]. *)
Inductive BytesPool : Type := PoolHandle (id : nat).

Record ostream := Ostream {
  rawBuffer : slice;
  pos : Z;
  bytesPool : option BytesPool
}.

Section Methods.
Variable growcap : nat -> nat.

(** Modelled from the spec: [pool.AppendByte], of package [pool].
    [grow]'s own comment says that it appends the byte to [rawBuffer],
    and the design notes call pooling an allocator-reuse optimisation
    orthogonal to correctness, so a pooled append behaves as the builtin
    one, a buffer handed out by the pool being storage no live slice
    refers to. *)
Definition AppendByte (bytes : slice) (b : Z) (p : BytesPool) : M slice :=
  go_append growcap bytes b.

Definition Reset (os : ostream) (buffer : slice) : ostream :=
  let os := Ostream buffer (pos os) (bytesPool os) in
  let os := Ostream (rawBuffer os) 0 (bytesPool os) in
  if (0 <? len buffer)%nat
  then Ostream (rawBuffer os) 8 (bytesPool os)
  else os.

Definition NewOStream (bytes : slice) (initAllocIfEmpty : bool)
    (pool : option BytesPool) : M ostream :=
  bytes <- (if (cap bytes =? 0)%nat && initAllocIfEmpty
            then make0 initAllocSize
            else ret bytes) ;
  let stream := Ostream nil_slice 0 pool in
  ret (Reset stream bytes).

Definition Clone (os : ostream) : ostream :=
  Ostream (rawBuffer os) (pos os) (bytesPool os).

Definition Len (os : ostream) : Z := Z.of_nat (len (rawBuffer os)).

Definition Empty (os : ostream) : bool := (Len os =? 0) && (pos os =? 0).

Definition lastIndex (os : ostream) : Z := Len os - 1.

Definition hasUnusedBits (os : ostream) : bool :=
  (0 <? pos os) && (pos os <? 8).

Definition grow (os : ostream) (v : Z) (np : Z) : M ostream :=
  buf <- match bytesPool os with
         | Some p => AppendByte (rawBuffer os) v p
         | None => go_append growcap (rawBuffer os) v
         end ;
  ret (Ostream buf np (bytesPool os)).

Definition fillUnused (os : ostream) (v : Z) : M unit :=
  old <- load (rawBuffer os) (lastIndex os) ;
  store (rawBuffer os) (lastIndex os) (Z.lor old (Z.shiftr v (uint (pos os)))).

(** Modelled from the spec: the type [Bit] (a single-bit value, 0 or 1),
    declared in another file of the package.  The conversion [byte(v)] and
    the comment that WriteBit writes the last bit of [v] make it a
    byte-sized unsigned type, so [v <<= 7] wraps at 8 bits. *)
Definition WriteBit (os : ostream) (v : Z) : M ostream :=
  let v := to_byte (Z.shiftl v 7) in
  if negb (hasUnusedBits os)
  then grow os v 1
  else
    _ <- fillUnused os v ;
    ret (Ostream (rawBuffer os) (pos os + 1) (bytesPool os)).

Definition WriteByte (os : ostream) (v : Z) : M ostream :=
  if negb (hasUnusedBits os)
  then grow os v 8
  else
    _ <- fillUnused os v ;
    grow os (to_byte (Z.shiftl v (uint (8 - pos os)))) (pos os).

(** [for i := 0; i < len(bytes); i++ { os.WriteByte(bytes[i]) }] *)
Fixpoint WriteBytes_loop (fuel : nat) (os : ostream) (bytes : slice) (i : Z)
    : M ostream :=
  if i <? Z.of_nat (len bytes)
  then match fuel with
       | O => out_of_fuel
       | S fuel =>
           b <- load bytes i ;
           os <- WriteByte os b ;
           WriteBytes_loop fuel os bytes (i + 1)
       end
  else ret os.

Definition WriteBytes (os : ostream) (bytes : slice) : M ostream :=
  WriteBytes_loop (len bytes) os bytes 0.

(** [for numBits >= 8 { os.WriteByte(byte(v >> 56)); v <<= 8; numBits -= 8 }] *)
Fixpoint WriteBits_bytes (fuel : nat) (os : ostream) (v numBits : Z)
    : M (ostream * Z * Z) :=
  if 8 <=? numBits
  then match fuel with
       | O => out_of_fuel
       | S fuel =>
           os <- WriteByte os (to_byte (Z.shiftr v 56)) ;
           WriteBits_bytes fuel os (to_uint64 (Z.shiftl v 8)) (numBits - 8)
       end
  else ret (os, v, numBits).

(** [for numBits > 0 { os.WriteBit(Bit((v >> 63) & 1)); v <<= 1; numBits-- }] *)
Fixpoint WriteBits_bits (fuel : nat) (os : ostream) (v numBits : Z)
    : M ostream :=
  if 0 <? numBits
  then match fuel with
       | O => out_of_fuel
       | S fuel =>
           os <- WriteBit os (to_byte (Z.land (Z.shiftr v 63) 1)) ;
           WriteBits_bits fuel os (to_uint64 (Z.shiftl v 1)) (numBits - 1)
       end
  else ret os.

Definition WriteBits (os : ostream) (v : Z) (numBits : Z) : M ostream :=
  if numBits =? 0 then ret os
  else
    let numBits := if 64 <? numBits then 64 else numBits in
    let v := to_uint64 (Z.shiftl v (uint (64 - numBits))) in
    '(os, v, numBits) <- WriteBits_bytes (Z.to_nat numBits) os v numBits ;
    WriteBits_bits (Z.to_nat numBits) os v numBits.

Definition Rawbytes (os : ostream) : slice * Z := (rawBuffer os, pos os).

End Methods.

End OStream.
Export OStream.

(** ** The options of package [storage] *)

Module Options.

(** [time.Duration] counts nanoseconds. *)
Definition Nanosecond : Z := 1.
Definition Second : Z := 1000000000 * Nanosecond.
Definition Minute : Z := 60 * Second.
Definition Hour : Z := 60 * Minute.

Definition defaultBlockSize : Z := 2 * Hour.
Definition defaultBufferFuture : Z := 2 * Minute.
Definition defaultBufferPast : Z := 10 * Minute.
Definition defaultBufferDrain : Z := 1 * Minute.
Definition defaultRetentionPeriod : Z := 2 * 24 * Hour.
Definition defaultBufferBucketAllocSize : Z := 256.
Definition defaultDatabaseBlockAllocSize : Z := 1024.
Definition defaultMaxFlushRetries : Z := 3.

(** Loggers, scopes, clocks, pools and factory functions belong to other
    packages; a field holding one is modelled by the name of the value
    stored in it ([None] for Go's nil). *)
Definition handle := option string.

Record dbOptions := DbOptions {
  logger : handle;
  scope : handle;
  blockSize : Z;
  newEncoderFn : handle;
  newDecoderFn : handle;
  nowFn : handle;
  bufferFuture : Z;
  bufferPast : Z;
  bufferDrain : Z;
  bufferBucketAllocSize : Z;
  databaseBlockAllocSize : Z;
  retentionPeriod : Z;
  newBootstrapFn : handle;
  bytesPool : handle;
  contextPool : handle;
  databaseBlockPool : handle;
  encoderPool : handle;
  singleReaderIteratorPool : handle;
  multiReaderIteratorPool : handle;
  maxFlushRetries : Z;
  filePathPrefix : string;
  newFileSetWriterFn : handle
}.

(** [EncodingTszPooled]: the two allocation sizes, and the pools and
    coder factories it builds, each named after its constructor. *)
Definition EncodingTszPooled (o : dbOptions)
    (bufferBucketAllocSize' databaseBlockAllocSize' : Z) : dbOptions :=
  DbOptions (logger o) (scope o) (blockSize o)
    (Some "tsz.NewEncoder"%string) (Some "tsz.NewDecoder"%string) (nowFn o)
    (bufferFuture o) (bufferPast o) (bufferDrain o) bufferBucketAllocSize'
    databaseBlockAllocSize' (retentionPeriod o) (newBootstrapFn o)
    (Some "pool.NewBytesPool"%string) (Some "pool.NewContextPool"%string)
    (Some "pool.NewDatabaseBlockPool"%string)
    (Some "pool.NewEncoderPool"%string)
    (Some "pool.NewSingleReaderIteratorPool"%string)
    (Some "pool.NewMultiReaderIteratorPool"%string) (maxFlushRetries o)
    (filePathPrefix o) (newFileSetWriterFn o).

(** Every setter copies the receiver ([opts := *o]), assigns one field
    and returns the copy; no setter looks at the value it stores. *)
Definition Logger (o : dbOptions) (value : handle) : dbOptions :=
  DbOptions value (scope o) (blockSize o) (newEncoderFn o) (newDecoderFn o)
    (nowFn o) (bufferFuture o) (bufferPast o) (bufferDrain o)
    (bufferBucketAllocSize o) (databaseBlockAllocSize o) (retentionPeriod o)
    (newBootstrapFn o) (bytesPool o) (contextPool o) (databaseBlockPool o)
    (encoderPool o) (singleReaderIteratorPool o) (multiReaderIteratorPool o)
    (maxFlushRetries o) (filePathPrefix o) (newFileSetWriterFn o).

Definition GetLogger (o : dbOptions) : handle := logger o.

Definition MetricsScope (o : dbOptions) (value : handle) : dbOptions :=
  DbOptions (logger o) value (blockSize o) (newEncoderFn o) (newDecoderFn o)
    (nowFn o) (bufferFuture o) (bufferPast o) (bufferDrain o)
    (bufferBucketAllocSize o) (databaseBlockAllocSize o) (retentionPeriod o)
    (newBootstrapFn o) (bytesPool o) (contextPool o) (databaseBlockPool o)
    (encoderPool o) (singleReaderIteratorPool o) (multiReaderIteratorPool o)
    (maxFlushRetries o) (filePathPrefix o) (newFileSetWriterFn o).

Definition GetMetricsScope (o : dbOptions) : handle := scope o.

Definition BlockSize (o : dbOptions) (value : Z) : dbOptions :=
  DbOptions (logger o) (scope o) value (newEncoderFn o) (newDecoderFn o)
    (nowFn o) (bufferFuture o) (bufferPast o) (bufferDrain o)
    (bufferBucketAllocSize o) (databaseBlockAllocSize o) (retentionPeriod o)
    (newBootstrapFn o) (bytesPool o) (contextPool o) (databaseBlockPool o)
    (encoderPool o) (singleReaderIteratorPool o) (multiReaderIteratorPool o)
    (maxFlushRetries o) (filePathPrefix o) (newFileSetWriterFn o).

Definition GetBlockSize (o : dbOptions) : Z := blockSize o.

Definition NewEncoderFn (o : dbOptions) (value : handle) : dbOptions :=
  DbOptions (logger o) (scope o) (blockSize o) value (newDecoderFn o)
    (nowFn o) (bufferFuture o) (bufferPast o) (bufferDrain o)
    (bufferBucketAllocSize o) (databaseBlockAllocSize o) (retentionPeriod o)
    (newBootstrapFn o) (bytesPool o) (contextPool o) (databaseBlockPool o)
    (encoderPool o) (singleReaderIteratorPool o) (multiReaderIteratorPool o)
    (maxFlushRetries o) (filePathPrefix o) (newFileSetWriterFn o).

Definition GetNewEncoderFn (o : dbOptions) : handle := newEncoderFn o.

Definition NewDecoderFn (o : dbOptions) (value : handle) : dbOptions :=
  DbOptions (logger o) (scope o) (blockSize o) (newEncoderFn o) value
    (nowFn o) (bufferFuture o) (bufferPast o) (bufferDrain o)
    (bufferBucketAllocSize o) (databaseBlockAllocSize o) (retentionPeriod o)
    (newBootstrapFn o) (bytesPool o) (contextPool o) (databaseBlockPool o)
    (encoderPool o) (singleReaderIteratorPool o) (multiReaderIteratorPool o)
    (maxFlushRetries o) (filePathPrefix o) (newFileSetWriterFn o).

Definition GetNewDecoderFn (o : dbOptions) : handle := newDecoderFn o.

Definition NowFn (o : dbOptions) (value : handle) : dbOptions :=
  DbOptions (logger o) (scope o) (blockSize o) (newEncoderFn o)
    (newDecoderFn o) value (bufferFuture o) (bufferPast o) (bufferDrain o)
    (bufferBucketAllocSize o) (databaseBlockAllocSize o) (retentionPeriod o)
    (newBootstrapFn o) (bytesPool o) (contextPool o) (databaseBlockPool o)
    (encoderPool o) (singleReaderIteratorPool o) (multiReaderIteratorPool o)
    (maxFlushRetries o) (filePathPrefix o) (newFileSetWriterFn o).

Definition GetNowFn (o : dbOptions) : handle := nowFn o.

Definition BufferFuture (o : dbOptions) (value : Z) : dbOptions :=
  DbOptions (logger o) (scope o) (blockSize o) (newEncoderFn o)
    (newDecoderFn o) (nowFn o) value (bufferPast o) (bufferDrain o)
    (bufferBucketAllocSize o) (databaseBlockAllocSize o) (retentionPeriod o)
    (newBootstrapFn o) (bytesPool o) (contextPool o) (databaseBlockPool o)
    (encoderPool o) (singleReaderIteratorPool o) (multiReaderIteratorPool o)
    (maxFlushRetries o) (filePathPrefix o) (newFileSetWriterFn o).

Definition GetBufferFuture (o : dbOptions) : Z := bufferFuture o.

Definition BufferPast (o : dbOptions) (value : Z) : dbOptions :=
  DbOptions (logger o) (scope o) (blockSize o) (newEncoderFn o)
    (newDecoderFn o) (nowFn o) (bufferFuture o) value (bufferDrain o)
    (bufferBucketAllocSize o) (databaseBlockAllocSize o) (retentionPeriod o)
    (newBootstrapFn o) (bytesPool o) (contextPool o) (databaseBlockPool o)
    (encoderPool o) (singleReaderIteratorPool o) (multiReaderIteratorPool o)
    (maxFlushRetries o) (filePathPrefix o) (newFileSetWriterFn o).

Definition GetBufferPast (o : dbOptions) : Z := bufferPast o.

Definition BufferDrain (o : dbOptions) (value : Z) : dbOptions :=
  DbOptions (logger o) (scope o) (blockSize o) (newEncoderFn o)
    (newDecoderFn o) (nowFn o) (bufferFuture o) (bufferPast o) value
    (bufferBucketAllocSize o) (databaseBlockAllocSize o) (retentionPeriod o)
    (newBootstrapFn o) (bytesPool o) (contextPool o) (databaseBlockPool o)
    (encoderPool o) (singleReaderIteratorPool o) (multiReaderIteratorPool o)
    (maxFlushRetries o) (filePathPrefix o) (newFileSetWriterFn o).

Definition GetBufferDrain (o : dbOptions) : Z := bufferDrain o.

Definition BufferBucketAllocSize (o : dbOptions) (value : Z) : dbOptions :=
  DbOptions (logger o) (scope o) (blockSize o) (newEncoderFn o)
    (newDecoderFn o) (nowFn o) (bufferFuture o) (bufferPast o)
    (bufferDrain o) value (databaseBlockAllocSize o) (retentionPeriod o)
    (newBootstrapFn o) (bytesPool o) (contextPool o) (databaseBlockPool o)
    (encoderPool o) (singleReaderIteratorPool o) (multiReaderIteratorPool o)
    (maxFlushRetries o) (filePathPrefix o) (newFileSetWriterFn o).

Definition GetBufferBucketAllocSize (o : dbOptions) : Z := bufferBucketAllocSize o.

Definition DatabaseBlockAllocSize (o : dbOptions) (value : Z) : dbOptions :=
  DbOptions (logger o) (scope o) (blockSize o) (newEncoderFn o)
    (newDecoderFn o) (nowFn o) (bufferFuture o) (bufferPast o)
    (bufferDrain o) (bufferBucketAllocSize o) value (retentionPeriod o)
    (newBootstrapFn o) (bytesPool o) (contextPool o) (databaseBlockPool o)
    (encoderPool o) (singleReaderIteratorPool o) (multiReaderIteratorPool o)
    (maxFlushRetries o) (filePathPrefix o) (newFileSetWriterFn o).

Definition GetDatabaseBlockAllocSize (o : dbOptions) : Z := databaseBlockAllocSize o.

Definition RetentionPeriod (o : dbOptions) (value : Z) : dbOptions :=
  DbOptions (logger o) (scope o) (blockSize o) (newEncoderFn o)
    (newDecoderFn o) (nowFn o) (bufferFuture o) (bufferPast o)
    (bufferDrain o) (bufferBucketAllocSize o) (databaseBlockAllocSize o)
    value (newBootstrapFn o) (bytesPool o) (contextPool o)
    (databaseBlockPool o) (encoderPool o) (singleReaderIteratorPool o)
    (multiReaderIteratorPool o) (maxFlushRetries o) (filePathPrefix o)
    (newFileSetWriterFn o).

Definition GetRetentionPeriod (o : dbOptions) : Z := retentionPeriod o.

Definition NewBootstrapFn (o : dbOptions) (value : handle) : dbOptions :=
  DbOptions (logger o) (scope o) (blockSize o) (newEncoderFn o)
    (newDecoderFn o) (nowFn o) (bufferFuture o) (bufferPast o)
    (bufferDrain o) (bufferBucketAllocSize o) (databaseBlockAllocSize o)
    (retentionPeriod o) value (bytesPool o) (contextPool o)
    (databaseBlockPool o) (encoderPool o) (singleReaderIteratorPool o)
    (multiReaderIteratorPool o) (maxFlushRetries o) (filePathPrefix o)
    (newFileSetWriterFn o).

Definition GetBootstrapFn (o : dbOptions) : handle := newBootstrapFn o.

Definition BytesPool (o : dbOptions) (value : handle) : dbOptions :=
  DbOptions (logger o) (scope o) (blockSize o) (newEncoderFn o)
    (newDecoderFn o) (nowFn o) (bufferFuture o) (bufferPast o)
    (bufferDrain o) (bufferBucketAllocSize o) (databaseBlockAllocSize o)
    (retentionPeriod o) (newBootstrapFn o) value (contextPool o)
    (databaseBlockPool o) (encoderPool o) (singleReaderIteratorPool o)
    (multiReaderIteratorPool o) (maxFlushRetries o) (filePathPrefix o)
    (newFileSetWriterFn o).

Definition GetBytesPool (o : dbOptions) : handle := bytesPool o.

Definition ContextPool (o : dbOptions) (value : handle) : dbOptions :=
  DbOptions (logger o) (scope o) (blockSize o) (newEncoderFn o)
    (newDecoderFn o) (nowFn o) (bufferFuture o) (bufferPast o)
    (bufferDrain o) (bufferBucketAllocSize o) (databaseBlockAllocSize o)
    (retentionPeriod o) (newBootstrapFn o) (bytesPool o) value
    (databaseBlockPool o) (encoderPool o) (singleReaderIteratorPool o)
    (multiReaderIteratorPool o) (maxFlushRetries o) (filePathPrefix o)
    (newFileSetWriterFn o).

Definition GetContextPool (o : dbOptions) : handle := contextPool o.

Definition DatabaseBlockPool (o : dbOptions) (value : handle) : dbOptions :=
  DbOptions (logger o) (scope o) (blockSize o) (newEncoderFn o)
    (newDecoderFn o) (nowFn o) (bufferFuture o) (bufferPast o)
    (bufferDrain o) (bufferBucketAllocSize o) (databaseBlockAllocSize o)
    (retentionPeriod o) (newBootstrapFn o) (bytesPool o) (contextPool o)
    value (encoderPool o) (singleReaderIteratorPool o)
    (multiReaderIteratorPool o) (maxFlushRetries o) (filePathPrefix o)
    (newFileSetWriterFn o).

Definition GetDatabaseBlockPool (o : dbOptions) : handle := databaseBlockPool o.

Definition EncoderPool (o : dbOptions) (value : handle) : dbOptions :=
  DbOptions (logger o) (scope o) (blockSize o) (newEncoderFn o)
    (newDecoderFn o) (nowFn o) (bufferFuture o) (bufferPast o)
    (bufferDrain o) (bufferBucketAllocSize o) (databaseBlockAllocSize o)
    (retentionPeriod o) (newBootstrapFn o) (bytesPool o) (contextPool o)
    (databaseBlockPool o) value (singleReaderIteratorPool o)
    (multiReaderIteratorPool o) (maxFlushRetries o) (filePathPrefix o)
    (newFileSetWriterFn o).

Definition GetEncoderPool (o : dbOptions) : handle := encoderPool o.

Definition SingleReaderIteratorPool (o : dbOptions) (value : handle) : dbOptions :=
  DbOptions (logger o) (scope o) (blockSize o) (newEncoderFn o)
    (newDecoderFn o) (nowFn o) (bufferFuture o) (bufferPast o)
    (bufferDrain o) (bufferBucketAllocSize o) (databaseBlockAllocSize o)
    (retentionPeriod o) (newBootstrapFn o) (bytesPool o) (contextPool o)
    (databaseBlockPool o) (encoderPool o) value (multiReaderIteratorPool o)
    (maxFlushRetries o) (filePathPrefix o) (newFileSetWriterFn o).

Definition GetSingleReaderIteratorPool (o : dbOptions) : handle := singleReaderIteratorPool o.

Definition MultiReaderIteratorPool (o : dbOptions) (value : handle) : dbOptions :=
  DbOptions (logger o) (scope o) (blockSize o) (newEncoderFn o)
    (newDecoderFn o) (nowFn o) (bufferFuture o) (bufferPast o)
    (bufferDrain o) (bufferBucketAllocSize o) (databaseBlockAllocSize o)
    (retentionPeriod o) (newBootstrapFn o) (bytesPool o) (contextPool o)
    (databaseBlockPool o) (encoderPool o) (singleReaderIteratorPool o) value
    (maxFlushRetries o) (filePathPrefix o) (newFileSetWriterFn o).

Definition GetMultiReaderIteratorPool (o : dbOptions) : handle := multiReaderIteratorPool o.

Definition MaxFlushRetries (o : dbOptions) (value : Z) : dbOptions :=
  DbOptions (logger o) (scope o) (blockSize o) (newEncoderFn o)
    (newDecoderFn o) (nowFn o) (bufferFuture o) (bufferPast o)
    (bufferDrain o) (bufferBucketAllocSize o) (databaseBlockAllocSize o)
    (retentionPeriod o) (newBootstrapFn o) (bytesPool o) (contextPool o)
    (databaseBlockPool o) (encoderPool o) (singleReaderIteratorPool o)
    (multiReaderIteratorPool o) value (filePathPrefix o)
    (newFileSetWriterFn o).

Definition GetMaxFlushRetries (o : dbOptions) : Z := maxFlushRetries o.

Definition FilePathPrefix (o : dbOptions) (value : string) : dbOptions :=
  DbOptions (logger o) (scope o) (blockSize o) (newEncoderFn o)
    (newDecoderFn o) (nowFn o) (bufferFuture o) (bufferPast o)
    (bufferDrain o) (bufferBucketAllocSize o) (databaseBlockAllocSize o)
    (retentionPeriod o) (newBootstrapFn o) (bytesPool o) (contextPool o)
    (databaseBlockPool o) (encoderPool o) (singleReaderIteratorPool o)
    (multiReaderIteratorPool o) (maxFlushRetries o) value
    (newFileSetWriterFn o).

Definition GetFilePathPrefix (o : dbOptions) : string := filePathPrefix o.

Definition NewFileSetWriterFn (o : dbOptions) (value : handle) : dbOptions :=
  DbOptions (logger o) (scope o) (blockSize o) (newEncoderFn o)
    (newDecoderFn o) (nowFn o) (bufferFuture o) (bufferPast o)
    (bufferDrain o) (bufferBucketAllocSize o) (databaseBlockAllocSize o)
    (retentionPeriod o) (newBootstrapFn o) (bytesPool o) (contextPool o)
    (databaseBlockPool o) (encoderPool o) (singleReaderIteratorPool o)
    (multiReaderIteratorPool o) (maxFlushRetries o) (filePathPrefix o) value.

Definition GetNewFileSetWriterFn (o : dbOptions) : handle := newFileSetWriterFn o.


Section WithEnvironment.
(** [os.TempDir()], read from the process environment. *)
Variable tempDir : string.

Definition defaultFilePathPrefix : string := tempDir.

(** The struct literal of [NewDatabaseOptions] leaves the fields it
    does not name at their zero value. *)
Definition NewDatabaseOptions : dbOptions :=
  let opts :=
    {| logger := Some "logging.SimpleLogger"%string;
       scope := Some "metrics.NoopScope"%string;
       blockSize := defaultBlockSize;
       newEncoderFn := None;
       newDecoderFn := None;
       nowFn := Some "time.Now"%string;
       bufferFuture := defaultBufferFuture;
       bufferPast := defaultBufferPast;
       bufferDrain := defaultBufferDrain;
       bufferBucketAllocSize := 0;
       databaseBlockAllocSize := 0;
       retentionPeriod := defaultRetentionPeriod;
       newBootstrapFn := None;
       bytesPool := None;
       contextPool := None;
       databaseBlockPool := None;
       encoderPool := None;
       singleReaderIteratorPool := None;
       multiReaderIteratorPool := None;
       maxFlushRetries := defaultMaxFlushRetries;
       filePathPrefix := defaultFilePathPrefix;
       newFileSetWriterFn := Some "fs.NewWriter"%string |} in
  EncodingTszPooled opts defaultBufferBucketAllocSize
    defaultDatabaseBlockAllocSize.
End WithEnvironment.

End Options.

(** ** Reading a stream back, and the state of a stream in its store *)

(** The bits of a byte, most significant first. *)
Definition byte_bits (b : Z) : list bool :=
  map (fun i : nat => Z.testbit b (7 - Z.of_nat i)) (seq 0 8).

(** The bits held by the bytes [bs] when only the first [p] bits of the
    last byte count. *)
Fixpoint committed_bits (bs : list Z) (p : Z) : list bool :=
  match bs with
  | [] => []
  | b :: bs' =>
      match bs' with
      | [] => take (Z.to_nat p) (byte_bits b)
      | _ :: _ => byte_bits b ++ committed_bits bs' p
      end
  end.

Definition stream_bits (h : heap) (os : ostream) : list bool :=
  committed_bits (view h (rawBuffer os)) (pos os).

(** The lowest [n] bits of [v], most significant of them first. *)
Definition low_bits (v : Z) (n : nat) : list bool :=
  map (fun i : nat => Z.testbit v (Z.of_nat (n - 1 - i))) (seq 0 n).

(** The [k] most significant bits of a 64-bit word, first bit first. *)
Definition top_bits (v : Z) (k : nat) : list bool :=
  map (fun i : nat => Z.testbit v (63 - Z.of_nat i)) (seq 0 k).

(** Every stored element is a byte. *)
Definition heap_bytes (h : heap) : Prop :=
  forall a i b, cell h a i = Some b -> is_byte b.

(** The slice lies within an allocated array. *)
Definition slice_valid (h : heap) (s : slice) : Prop :=
  (len s <= cap s)%nat /\
  match base s with
  | Some a => exists arr, h !! a = Some arr /\ (off s + cap s <= length arr)%nat
  | None => cap s = 0%nat
  end.

(** The cursor is 0 on an empty buffer and between 1 and 8 otherwise. *)
Definition wfpos (os : ostream) : Prop :=
  (len (rawBuffer os) = 0%nat /\ pos os = 0) \/
  ((1 <= len (rawBuffer os))%nat /\ 1 <= pos os <= 8).

Definition good (os : ostream) (h : heap) : Prop :=
  heap_bytes h /\ slice_valid h (rawBuffer os) /\ wfpos os.

(** The bits of the last byte that are not committed yet are zero. *)
Definition padded (os : ostream) (h : heap) : Prop :=
  hasUnusedBits os = true ->
  forall l, view h (rawBuffer os) !! (len (rawBuffer os) - 1)%nat = Some l ->
  forall j, 0 <= j < 8 - pos os -> Z.testbit l j = false.

(** Number of bytes of the buffer that are committed in full. *)
Definition full (os : ostream) : nat :=
  if hasUnusedBits os then (len (rawBuffer os) - 1)%nat else len (rawBuffer os).

(** [b] and [b'] have the same [p] most significant bits. *)
Definition top_eq (p : Z) (b b' : Z) : Prop :=
  forall j, 8 - p <= j < 8 -> Z.testbit b j = Z.testbit b' j.

(** The committed region of [os'] covers that of [os]. *)
Definition region_le (os os' : ostream) : Prop :=
  (full os <= full os')%nat /\
  (full os' = full os -> hasUnusedBits os = true ->
   hasUnusedBits os' = true /\ pos os <= pos os').

(** What writing to [os] may do to the store and to the stream: arrays are
    never resized; outside the window between the last committed bit of
    [os] and the end of its capacity no element changes; the stream stays in
    its array or moves to a fresh one; what it had committed stays. *)
Record evolves (os : ostream) (h : heap) (os' : ostream) (h' : heap) : Prop :=
  Evolves {
    ev_length : (length h <= length h')%nat;
    ev_arrays : forall a arr, h !! a = Some arr ->
      exists arr', h' !! a = Some arr' /\ length arr' = length arr;
    ev_frame : forall a i, (a < length h)%nat ->
      base (rawBuffer os) <> Some a \/
      (i < off (rawBuffer os) + full os)%nat \/
      (off (rawBuffer os) + cap (rawBuffer os) <= i)%nat ->
      cell h' a i = cell h a i;
    ev_partial : forall a b, base (rawBuffer os) = Some a ->
      hasUnusedBits os = true ->
      cell h a (off (rawBuffer os) + full os) = Some b ->
      exists b', cell h' a (off (rawBuffer os) + full os) = Some b' /\
                 top_eq (pos os) b b';
    ev_succ :
      (base (rawBuffer os') = base (rawBuffer os) /\
       off (rawBuffer os') = off (rawBuffer os) /\
       cap (rawBuffer os') = cap (rawBuffer os)) \/
      (exists a', base (rawBuffer os') = Some a' /\ (length h <= a')%nat);
    ev_region : region_le os os';
    ev_view : forall i b, view h (rawBuffer os) !! i = Some b ->
      exists b', view h' (rawBuffer os') !! i = Some b' /\
        ((i < full os)%nat -> b' = b) /\
        (i = full os -> hasUnusedBits os = true -> top_eq (pos os) b b')
  }.

(** A write that leaves the stream usable, within [evolves], and that adds
    exactly the bits [req] when the padding was clean. *)
Record wrote (req : list bool) (os : ostream) (h : heap)
    (os' : ostream) (h' : heap) : Prop :=
  Wrote {
    wr_good : good os' h';
    wr_evolves : evolves os h os' h';
    wr_bits : padded os h ->
      padded os' h' /\ stream_bits h' os' = stream_bits h os ++ req
  }.

(** ** Calls on a stream *)

Inductive call : Type :=
| CallWriteBit (v : Z)
| CallWriteByte (v : Z)
| CallWriteBits (v : Z) (numBits : Z)
| CallWriteBytes (bytes : slice).

Definition run_call (growcap : nat -> nat) (c : call) (os : ostream) : M ostream :=
  match c with
  | CallWriteBit v => WriteBit growcap os v
  | CallWriteByte v => WriteByte growcap os v
  | CallWriteBits v n => WriteBits growcap os v n
  | CallWriteBytes bytes => WriteBytes growcap os bytes
  end.

Fixpoint run_calls (growcap : nat -> nat) (cs : list call) (os : ostream)
    : M ostream :=
  match cs with
  | [] => ret os
  | c :: cs' => os' <- run_call growcap c os ; run_calls growcap cs' os'
  end.

(** The arguments have the values their Go types allow. *)
Definition call_typed (c : call) : Prop :=
  match c with
  | CallWriteBit v => is_byte v
  | CallWriteByte v => is_byte v
  | CallWriteBits v n => is_uint64 v /\ is_int n
  | CallWriteBytes _ => True
  end.

(** The bits a call asks to be written, most significant first; a byte
    slice is read in the store [h]. *)
Definition requested (h : heap) (c : call) : list bool :=
  match c with
  | CallWriteBit v => [Z.testbit v 0]
  | CallWriteByte v => byte_bits v
  | CallWriteBits v n => low_bits v (Z.to_nat (Z.min n 64))
  | CallWriteBytes bytes => flat_map byte_bits (view h bytes)
  end.

(** The number of bits a call asks for. *)
Definition call_nbits (c : call) : nat :=
  match c with
  | CallWriteBit _ => 1%nat
  | CallWriteByte _ => 8%nat
  | CallWriteBits _ n => Z.to_nat (Z.min n 64)
  | CallWriteBytes bytes => (8 * len bytes)%nat
  end.

(** The slice [s] is allocated and lies in another array than the
    stream's buffer. *)
Definition apart (h : heap) (os : ostream) (s : slice) : Prop :=
  slice_valid h s /\
  forall a, base s = Some a -> base (rawBuffer os) <> Some a.

Definition call_apart (h : heap) (os : ostream) (c : call) : Prop :=
  match c with
  | CallWriteBytes bytes => apart h os bytes
  | _ => True
  end.

(** Writes to an original stream and to its clone, in any order: [true]
    tags a call on the original, [false] a call on the clone. *)
Fixpoint run_two (growcap : nat -> nat) (ws : list (bool * call))
    (s c : ostream) : M (ostream * ostream) :=
  match ws with
  | [] => ret (s, c)
  | (true, w) :: ws' => s' <- run_call growcap w s ; run_two growcap ws' s' c
  | (false, w) :: ws' => c' <- run_call growcap w c ; run_two growcap ws' s c'
  end.

(** The eight one-bit arguments that spell the byte [v], most significant
    bit first: [Bit((v >> 7) & 1)], ..., [Bit(v & 1)]. *)
Definition bits_of_byte (v : Z) : list call :=
  map (fun i : nat => CallWriteBit (Z.land (Z.shiftr v (7 - Z.of_nat i)) 1))
      (seq 0 8).

(** The states a stream can be in: made by [NewOStream], then reset or
    written to. *)
Inductive reachable (growcap : nat -> nat) : ostream -> heap -> Prop :=
| reach_new bytes init pool h os h' :
    heap_bytes h -> slice_valid h bytes ->
    NewOStream bytes init pool h = Ok (os, h') ->
    reachable growcap os h'
| reach_reset os h buffer :
    reachable growcap os h -> slice_valid h buffer ->
    reachable growcap (Reset os buffer) h
| reach_call os h c os' h' :
    reachable growcap os h -> call_typed c ->
    run_call growcap c os h = Ok (os', h') ->
    reachable growcap os' h'.

(** What [X] in [h] has kept of the stream [os0] in [h0]: the committed
    region of [os0] reads the same in [X]. *)
Record extends (os0 : ostream) (h0 : heap) (X : ostream) (h : heap) : Prop :=
  Extends {
    ex_length : (length h0 <= length h)%nat;
    ex_region : region_le os0 X;
    ex_succ :
      (base (rawBuffer X) = base (rawBuffer os0) /\
       off (rawBuffer X) = off (rawBuffer os0) /\
       cap (rawBuffer X) = cap (rawBuffer os0)) \/
      (exists a', base (rawBuffer X) = Some a' /\ (length h0 <= a')%nat);
    ex_view : forall i b, view h0 (rawBuffer os0) !! i = Some b ->
      exists b', view h (rawBuffer X) !! i = Some b' /\
        ((i < full os0)%nat -> b' = b) /\
        (i = full os0 -> hasUnusedBits os0 = true -> top_eq (pos os0) b b')
  }.

(** Two streams share an array only if it is the one of [os0]. *)
Definition sep (os0 X Y : ostream) : Prop :=
  base (rawBuffer X) = base (rawBuffer Y) ->
  base (rawBuffer X) = base (rawBuffer os0).

(** The committed bits of the last byte when it is not full. *)
Definition partial_bits (h : heap) (os : ostream) : list bool :=
  if hasUnusedBits os
  then match view h (rawBuffer os) !! full os with
       | Some l => take (Z.to_nat (pos os)) (byte_bits l)
       | None => []
       end
  else [].

(** An instance of the runtime's growth policy, for concrete runs. *)
Definition sample_growcap (c : nat) : nat := (2 * c + 8)%nat.

(** A configuration the windowing policy cannot work with: a tolerance
    that is not less than the block size, or a duration that is not
    positive. *)
Definition ConfigurationInvalid (o : Options.dbOptions) : Prop :=
  ~ Options.bufferPast o < Options.blockSize o \/
  ~ Options.bufferFuture o < Options.blockSize o \/
  Options.blockSize o <= 0 \/
  Options.bufferPast o <= 0 \/
  Options.bufferFuture o <= 0 \/
  Options.bufferDrain o <= 0 \/
  Options.retentionPeriod o <= 0.

(** The number of bits a sequence of calls asks for. *)
Fixpoint calls_nbits (cs : list call) : nat :=
  match cs with
  | [] => 0%nat
  | c :: cs' => (call_nbits c + calls_nbits cs')%nat
  end.

(** The calls made on the original ([true]) or on the clone ([false]) in a
    tagged sequence. *)
Definition calls_of (who : bool) (ws : list (bool * call)) : list call :=
  map snd (filter (fun w => w.1 = who) ws).

(** [Z] still is the stream [os]: same buffer header, same cursor. *)
Definition untouched (os Z : ostream) : Prop :=
  rawBuffer Z = rawBuffer os /\ pos Z = pos os.

(** The bound that the note above [NewDatabaseOptions] wants checked:
    buffer future and buffer past are less than the block size. *)
Definition window_ok (o : Options.dbOptions) : Prop :=
  Options.GetBufferFuture o < Options.GetBlockSize o /\
  Options.GetBufferPast o < Options.GetBlockSize o.

(** * Properties *)

(** ** The store *)

Lemma cell_poke_eq h a i v b :
  cell h a i = Some b -> cell (poke a i v h) a i = Some v.
Proof.
  unfold cell, poke. rewrite list_lookup_alter_eq.
  destruct (h !! a) as [arr|] eqn:E; simpl; [|done].
  intros Hb. apply list_lookup_insert_eq. by eapply lookup_lt_Some.
Qed.

Lemma cell_poke_ne h a i v a' i' :
  a <> a' \/ i <> i' -> cell (poke a i v h) a' i' = cell h a' i'.
Proof.
  unfold cell, poke. intros Hne.
  destruct (decide (a = a')) as [->|Ha].
  - rewrite list_lookup_alter_eq. destruct (h !! a'); simpl; [|done].
    apply list_lookup_insert_ne. by destruct Hne.
  - by rewrite list_lookup_alter_ne.
Qed.

Lemma poke_length h a i v : length (poke a i v h) = length h.
Proof. apply length_alter. Qed.

Lemma poke_arrays h a i v a' arr :
  h !! a' = Some arr ->
  exists arr', poke a i v h !! a' = Some arr' /\ length arr' = length arr.
Proof.
  unfold poke. intros H. destruct (decide (a = a')) as [->|Ha].
  - rewrite list_lookup_alter_eq, H. simpl. eexists; split; [done|].
    apply length_insert.
  - rewrite list_lookup_alter_ne by done. eauto.
Qed.

Lemma cell_alloc h arr a i :
  (a < length h)%nat -> cell (h ++ [arr]) a i = cell h a i.
Proof. unfold cell. intros. by rewrite lookup_app_l. Qed.

Lemma cell_alloc_new h arr i : cell (h ++ [arr]) (length h) i = arr !! i.
Proof.
  unfold cell. rewrite lookup_app_r by lia.
  by replace (length h - length h)%nat with 0%nat by lia.
Qed.

Lemma cell_lt h a i b : cell h a i = Some b -> (a < length h)%nat.
Proof.
  unfold cell. destruct (h !! a) eqn:E; [|done].
  intros _. by eapply lookup_lt_Some.
Qed.

Lemma view_lookup h s i :
  view h s !! i =
  if decide (i < len s)%nat
  then match base s with
       | Some a => cell h a (off s + i)
       | None => None
       end
  else None.
Proof.
  unfold view, backing, cell. case_decide.
  - rewrite lookup_take_lt by done. rewrite lookup_drop.
    destruct (base s); [|done]. by destruct (h !! n).
  - apply lookup_take_ge. lia.
Qed.

Lemma view_length h s : slice_valid h s -> length (view h s) = len s.
Proof.
  intros [Hle Hb]. unfold view, backing. rewrite length_take, length_drop.
  destruct (base s).
  - destruct Hb as (arr & -> & Hlen). simpl. lia.
  - simpl. lia.
Qed.

Lemma view_ext h h' s s' :
  len s = len s' ->
  (forall i, (i < len s)%nat -> view h s !! i = view h' s' !! i) ->
  view h s = view h' s'.
Proof.
  intros Hlen Hi. apply list_eq. intros i.
  destruct (decide (i < len s)%nat) as [Hlt|Hge]; [by apply Hi|].
  rewrite !view_lookup. rewrite <- Hlen. by rewrite !decide_False by done.
Qed.

(** ** [evolves] is a preorder *)

Lemma top_eq_refl p b : top_eq p b b.
Proof. by intros j _. Qed.

Lemma top_eq_trans p q b1 b2 b3 :
  p <= q -> top_eq p b1 b2 -> top_eq q b2 b3 -> top_eq p b1 b3.
Proof.
  intros Hpq H12 H23 j Hj. rewrite H12 by done. apply H23. lia.
Qed.

Lemma region_le_refl os : region_le os os.
Proof. split; [lia|]. intros _ H. split; [done|lia]. Qed.

Lemma region_le_trans os1 os2 os3 :
  region_le os1 os2 -> region_le os2 os3 -> region_le os1 os3.
Proof.
  intros [H12 K12] [H23 K23]. split; [lia|].
  intros Heq Hu. assert (full os2 = full os1) as E12 by lia.
  destruct (K12 E12 Hu) as [Hu2 Hp12].
  assert (full os3 = full os2) as E23 by lia.
  destruct (K23 E23 Hu2) as [Hu3 Hp23]. split; [done|lia].
Qed.

Lemma evolves_refl os h : evolves os h os h.
Proof.
  constructor.
  - done.
  - eauto.
  - done.
  - intros a b _ _ Hb. exists b. split; [done|apply top_eq_refl].
  - by left.
  - apply region_le_refl.
  - intros i b Hb. exists b. split; [done|]. split; [done|].
    intros _ _. apply top_eq_refl.
Qed.

Lemma evolves_trans os1 h1 os2 h2 os3 h3 :
  evolves os1 h1 os2 h2 -> evolves os2 h2 os3 h3 -> evolves os1 h1 os3 h3.
Proof.
  intros E1 E2.
  pose proof (ev_length _ _ _ _ E1) as L1.
  pose proof (ev_region _ _ _ _ E1) as [R1 R1'].
  assert (forall a i, (a < length h1)%nat ->
          base (rawBuffer os1) <> Some a \/
          (i < off (rawBuffer os1) + full os1)%nat \/
          (off (rawBuffer os1) + cap (rawBuffer os1) <= i)%nat ->
          cell h3 a i = cell h1 a i) as Hframe.
  { intros a i Ha Hc. rewrite <- (ev_frame _ _ _ _ E1 a i Ha Hc).
    apply (ev_frame _ _ _ _ E2); [lia|].
    destruct (ev_succ _ _ _ _ E1) as [(Hb & Ho & Hcap)|(a' & Hb & Hfresh)].
    - rewrite Hb, Ho, Hcap. destruct Hc as [?|[?|?]]; [by left|right; left; lia|by right; right].
    - left. rewrite Hb. intros [= ->]. lia. }
  constructor.
  - pose proof (ev_length _ _ _ _ E2). lia.
  - intros a arr Ha.
    destruct (ev_arrays _ _ _ _ E1 a arr Ha) as (arr2 & Ha2 & Hl2).
    destruct (ev_arrays _ _ _ _ E2 a arr2 Ha2) as (arr3 & Ha3 & Hl3).
    exists arr3. split; [done|congruence].
  - done.
  - intros a b Hb Hu Hc.
    destruct (ev_partial _ _ _ _ E1 a b Hb Hu Hc) as (b2 & Hc2 & T12).
    destruct (ev_succ _ _ _ _ E1) as [(Hb' & Ho & Hcap)|(a' & Hb' & Hfresh)].
    + destruct (decide (full os2 = full os1)) as [Ef|Nf].
      * destruct (R1' Ef Hu) as [Hu2 Hp].
        rewrite <- Ho, <- Ef in Hc2.
        destruct (ev_partial _ _ _ _ E2 a b2) as (b3 & Hc3 & T23);
          [congruence|done|done|].
        exists b3. rewrite <- Ho, <- Ef. split; [done|].
        by eapply top_eq_trans.
      * exists b2. split; [|done]. rewrite <- Hc2.
        apply (ev_frame _ _ _ _ E2).
        -- apply cell_lt in Hc2. done.
        -- right; left. rewrite Ho. lia.
    + exists b2. split; [|done]. rewrite <- Hc2.
      apply (ev_frame _ _ _ _ E2).
      * by apply cell_lt in Hc2.
      * left. rewrite Hb'. intros [= ->]. apply cell_lt in Hc. lia.
  - destruct (ev_succ _ _ _ _ E1) as [(Hb & Ho & Hcap)|(a' & Hb & Hfresh)];
      destruct (ev_succ _ _ _ _ E2) as [(Hb2 & Ho2 & Hcap2)|(a2 & Hb2 & Hfresh2)].
    + left. repeat split; congruence.
    + right. exists a2. split; [done|lia].
    + right. exists a'. split; [congruence|done].
    + right. exists a2. split; [done|lia].
  - eapply region_le_trans; by eapply ev_region.
  - intros i b Hv.
    destruct (ev_view _ _ _ _ E1 i b Hv) as (b2 & Hv2 & Hlt & Heq).
    destruct (ev_view _ _ _ _ E2 i b2 Hv2) as (b3 & Hv3 & Hlt2 & Heq2).
    exists b3. split; [done|]. split.
    + intros Hi. rewrite Hlt2 by lia. by apply Hlt.
    + intros -> Hu. destruct (decide (full os2 = full os1)) as [Ef|Nf].
      * destruct (R1' Ef Hu) as [Hu2 Hp].
        eapply top_eq_trans; [done|by apply Heq|apply Heq2; [done|done]].
      * rewrite Hlt2 by lia. by apply Heq.
Qed.

(** ** Bits of bytes *)

Lemma byte_bits_unfold b :
  byte_bits b =
  [Z.testbit b 7; Z.testbit b 6; Z.testbit b 5; Z.testbit b 4;
   Z.testbit b 3; Z.testbit b 2; Z.testbit b 1; Z.testbit b 0].
Proof. reflexivity. Qed.

Lemma byte_bits_length b : length (byte_bits b) = 8%nat.
Proof. reflexivity. Qed.

Lemma uint_small p : 0 <= p < 2 ^ 64 -> uint p = p.
Proof. intros. unfold uint. by apply Z.mod_small. Qed.

Lemma byte_high v j : is_byte v -> 8 <= j -> Z.testbit v j = false.
Proof.
  intros [H0 H1] Hj. destruct (decide (v = 0)) as [->|Hv].
  - apply Z.bits_0.
  - apply Z.bits_above_log2; [done|].
    assert (Z.log2 v < 8); [|lia].
    apply Z.log2_lt_pow2; [lia|]. by change (2 ^ 8) with 256.
Qed.

Lemma is_byte_bits v :
  0 <= v -> (forall j, 8 <= j -> Z.testbit v j = false) -> is_byte v.
Proof.
  intros H0 Hhi. split; [done|].
  destruct (decide (v < 256)) as [|Hge]; [done|].
  assert (0 < v) as Hpos by lia.
  pose proof (Z.bit_log2 v Hpos) as Hb.
  rewrite Hhi in Hb; [done|].
  change 8 with (Z.log2 256). apply Z.log2_le_mono. lia.
Qed.

Lemma to_byte_is_byte x : is_byte (to_byte x).
Proof. unfold is_byte, to_byte. apply Z.mod_pos_bound. lia. Qed.

Lemma to_byte_bit x j : 0 <= j < 8 -> Z.testbit (to_byte x) j = Z.testbit x j.
Proof.
  intros Hj. unfold to_byte. change 256 with (2 ^ 8).
  apply Z.mod_pow2_bits_low. lia.
Qed.

Lemma fill_bit l v p j :
  0 <= j -> Z.testbit (Z.lor l (Z.shiftr v p)) j = Z.testbit l j || Z.testbit v (j + p).
Proof. intros Hj. by rewrite Z.lor_spec, Z.shiftr_spec. Qed.

Lemma shl_byte_bit v k j :
  0 <= j < 8 -> Z.testbit (to_byte (Z.shiftl v k)) j = Z.testbit v (j - k).
Proof. intros Hj. rewrite to_byte_bit by done. apply Z.shiftl_spec. lia. Qed.

Lemma fill_is_byte l v p :
  is_byte l -> is_byte v -> 0 <= p -> is_byte (Z.lor l (Z.shiftr v p)).
Proof.
  intros Hl Hv Hp. apply is_byte_bits.
  - apply Z.lor_nonneg. split; [apply Hl|]. apply Z.shiftr_nonneg, Hv.
  - intros j Hj. rewrite fill_bit by lia.
    rewrite (byte_high l j Hl Hj), (byte_high v (j + p) Hv) by lia. done.
Qed.

Lemma fill_top_eq l v p :
  is_byte v -> 1 <= p <= 7 -> top_eq p l (Z.lor l (Z.shiftr v (uint p))).
Proof.
  intros Hv Hp j Hj. rewrite uint_small by lia. rewrite fill_bit by lia.
  rewrite (byte_high v (j + p) Hv) by lia. by rewrite orb_false_r.
Qed.

Ltac pos_cases p :=
  let H := fresh in
  assert (p = 1 \/ p = 2 \/ p = 3 \/ p = 4 \/ p = 5 \/ p = 6 \/ p = 7) as H
    by lia;
  destruct H as [->|[->|[->|[->|[->|[->| ->]]]]]].

Ltac concrete_take :=
  repeat match goal with
         | |- context [Z.to_nat ?z] =>
             let n := eval vm_compute in (Z.to_nat z) in
             change (Z.to_nat z) with n
         end;
  cbn [take app].

Lemma cons_eq {A} (a b : A) (l k : list A) : a = b -> l = k -> a :: l = b :: k.
Proof. by intros -> ->. Qed.

Ltac each_bit := repeat (apply cons_eq); try reflexivity.

Ltac bit_goal Hv Hpad :=
  rewrite ?fill_bit, ?shl_byte_bit by lia;
  try (rewrite Hpad by lia);
  try (rewrite (byte_high _ _ Hv) by lia);
  rewrite ?orb_false_r; simpl orb;
  first [reflexivity | f_equal; lia].

Lemma writebit_fill l v p :
  is_byte v -> 1 <= p <= 7 ->
  (forall j, 0 <= j < 8 - p -> Z.testbit l j = false) ->
  let l' := Z.lor l (Z.shiftr (to_byte (Z.shiftl v 7)) (uint p)) in
  take (Z.to_nat (p + 1)) (byte_bits l') =
    take (Z.to_nat p) (byte_bits l) ++ [Z.testbit v 0] /\
  (forall j, 0 <= j < 8 - (p + 1) -> Z.testbit l' j = false).
Proof.
  intros Hv Hp Hpad l'. subst l'. rewrite uint_small by lia.
  pose proof (to_byte_is_byte (Z.shiftl v 7)) as Hb. split.
  - rewrite !byte_bits_unfold.
    pos_cases p; concrete_take; each_bit;
      rewrite fill_bit by lia;
      try (rewrite Hpad by lia);
      try (rewrite (byte_high _ _ Hb) by lia);
      rewrite ?shl_byte_bit by lia;
      rewrite ?orb_false_r; simpl orb; reflexivity.
  - intros j Hj. rewrite fill_bit by lia. rewrite Hpad by lia. simpl.
    rewrite shl_byte_bit by lia. apply Z.testbit_neg_r. lia.
Qed.

Lemma writebyte_fill l v p :
  is_byte v -> 1 <= p <= 7 ->
  (forall j, 0 <= j < 8 - p -> Z.testbit l j = false) ->
  byte_bits (Z.lor l (Z.shiftr v (uint p))) ++
    take (Z.to_nat p) (byte_bits (to_byte (Z.shiftl v (uint (8 - p))))) =
    take (Z.to_nat p) (byte_bits l) ++ byte_bits v /\
  (forall j, 0 <= j < 8 - p ->
     Z.testbit (to_byte (Z.shiftl v (uint (8 - p)))) j = false).
Proof.
  intros Hv Hp Hpad. rewrite !uint_small by lia. split.
  - rewrite !byte_bits_unfold.
    pos_cases p; concrete_take; each_bit; bit_goal Hv Hpad.
  - intros j Hj. rewrite shl_byte_bit by lia. apply Z.testbit_neg_r. lia.
Qed.

Lemma writebit_first v :
  let b := to_byte (Z.shiftl v 7) in
  take (Z.to_nat 1) (byte_bits b) = [Z.testbit v 0] /\
  (forall j, 0 <= j < 8 - 1 -> Z.testbit b j = false).
Proof.
  split.
  - rewrite byte_bits_unfold. concrete_take. f_equal. by rewrite shl_byte_bit.
  - intros j Hj. rewrite shl_byte_bit by lia. apply Z.testbit_neg_r. lia.
Qed.

(** ** Bits of byte sequences *)

Lemma committed_bits_snoc bs b p :
  committed_bits (bs ++ [b]) p =
  flat_map byte_bits bs ++ take (Z.to_nat p) (byte_bits b).
Proof.
  induction bs as [|x bs IH]; [done|].
  assert (committed_bits ((x :: bs) ++ [b]) p =
          byte_bits x ++ committed_bits (bs ++ [b]) p) as -> by (by destruct bs).
  rewrite IH. cbn [flat_map]. by rewrite app_assoc.
Qed.

Lemma committed_bits_full bs : committed_bits bs 8 = flat_map byte_bits bs.
Proof.
  induction bs as [|x bs IH]; [done|].
  cbn [committed_bits flat_map]. rewrite IH. destruct bs; [|done].
  simpl flat_map. by rewrite app_nil_r.
Qed.

Lemma snoc_view (bs : list Z) n l :
  length bs = n -> bs !! (n - 1)%nat = Some l -> (1 <= n)%nat ->
  bs = take (n - 1) bs ++ [l].
Proof.
  intros Hn Hl H1. rewrite <- (take_drop (n - 1) bs) at 1. f_equal.
  apply list_eq. intros i. rewrite lookup_drop. destruct i as [|i].
  - by rewrite Nat.add_0_r.
  - simpl. rewrite lookup_nil. apply lookup_ge_None_2. lia.
Qed.

(** ** The slice primitives *)

Lemma cell_poke h a i v a' i' :
  cell (poke a i v h) a' i' =
  if decide (a = a' /\ i = i') then (fun _ => v) <$> cell h a i else cell h a' i'.
Proof.
  case_decide as Hd.
  - destruct Hd as [<- <-]. destruct (cell h a i) as [b|] eqn:E.
    + by erewrite cell_poke_eq.
    + unfold cell, poke in *. rewrite list_lookup_alter_eq.
      destruct (h !! a) as [arr|]; simpl in *; [|done].
      rewrite list_lookup_insert. case_decide as Hd; [|done].
      destruct Hd as [_ Hlt]. apply lookup_ge_None_1 in E. lia.
  - apply cell_poke_ne. destruct (decide (a = a')); [right|left]; naive_solver.
Qed.

Lemma heap_bytes_poke h a i v :
  heap_bytes h -> is_byte v -> heap_bytes (poke a i v h).
Proof.
  intros Hh Hv a' i' b. rewrite cell_poke. case_decide.
  - destruct (cell h a i); simpl; [|done]. by intros [= <-].
  - apply Hh.
Qed.

Lemma heap_bytes_alloc h arr :
  heap_bytes h -> Forall is_byte arr -> heap_bytes (h ++ [arr]).
Proof.
  intros Hh Harr a i b Hc.
  destruct (decide (a < length h)%nat) as [Hlt|Hge].
  - rewrite cell_alloc in Hc by done. by eapply Hh.
  - pose proof (cell_lt _ _ _ _ Hc) as Hlt. rewrite length_app in Hlt.
    simpl in Hlt. assert (a = length h) as -> by lia.
    rewrite cell_alloc_new in Hc. by eapply (proj1 (Forall_lookup _ _)).
Qed.

Lemma view_bytes h s : heap_bytes h -> Forall is_byte (view h s).
Proof.
  intros Hh. apply Forall_lookup. intros i b. rewrite view_lookup.
  case_decide; [|done]. destruct (base s); [|done]. apply Hh.
Qed.

Lemma alloc_arrays h (arr0 : list Z) a arr :
  h !! a = Some arr ->
  exists arr', (h ++ [arr0]) !! a = Some arr' /\ length arr' = length arr.
Proof. intros H. exists arr. split; [|done]. by apply lookup_app_l_Some. Qed.

Lemma slice_valid_cell h s a i :
  slice_valid h s -> base s = Some a -> (i < off s + cap s)%nat ->
  is_Some (cell h a i).
Proof.
  intros [_ Hb] Ha Hi. rewrite Ha in Hb. destruct Hb as (arr & Harr & Hlen).
  unfold cell. rewrite Harr. apply lookup_lt_is_Some. lia.
Qed.

Section Primitives.
Variable growcap : nat -> nat.

Lemma go_append_spec s v h :
  heap_bytes h -> slice_valid h s -> is_byte v ->
  exists s' h',
    go_append growcap s v h = Ok (s', h') /\
    heap_bytes h' /\ slice_valid h' s' /\
    len s' = S (len s) /\
    view h' s' = view h s ++ [v] /\
    (length h <= length h')%nat /\
    (forall a arr, h !! a = Some arr ->
       exists arr', h' !! a = Some arr' /\ length arr' = length arr) /\
    (forall a i, (a < length h)%nat ->
       base s <> Some a \/ i <> (off s + len s)%nat \/
       (off s + cap s <= i)%nat ->
       cell h' a i = cell h a i) /\
    ((base s' = base s /\ off s' = off s /\ cap s' = cap s) \/
     (exists a', base s' = Some a' /\ (length h <= a')%nat)).
Proof.
  intros Hh Hs Hv. unfold go_append.
  destruct (len s <? cap s)%nat eqn:Hlt.
  - apply Nat.ltb_lt in Hlt. pose proof (view_length h s Hs) as Hvl.
    destruct Hs as [Hle Hb].
    destruct (base s) as [a|] eqn:Hbase; [|lia].
    destruct Hb as (arr & Harr & Hlen).
    eexists _, _. split; [done|].
    assert (is_Some (cell h a (off s + len s))) as [b0 Hb0].
    { unfold cell. rewrite Harr. apply lookup_lt_is_Some. lia. }
    split; [by apply heap_bytes_poke|]. split.
    { split; simpl; [lia|].
      destruct (poke_arrays h a (off s + len s) v a arr Harr) as (arr' & ? & ?).
      exists arr'. split; [done|lia]. }
    split; [done|]. split.
    { apply list_eq. intros i. rewrite view_lookup. simpl.
      rewrite cell_poke. case_decide as Hi.
      - case_decide as Hd.
        + destruct Hd as [_ Hd]. assert (i = len s) as -> by lia.
          rewrite Hb0. simpl. rewrite lookup_app_r; rewrite Hvl; [|lia].
          by rewrite Nat.sub_diag.
        + assert (i < len s)%nat
            by (destruct (decide (i = len s)); [naive_solver lia|lia]).
          rewrite lookup_app_l by (by rewrite Hvl).
          rewrite view_lookup, Hbase. by rewrite decide_True.
      - symmetry. apply lookup_ge_None_2. rewrite length_app. simpl.
        rewrite Hvl. lia. }
    split; [by rewrite poke_length|]. split; [apply poke_arrays|].
    split; [|by left].
    intros a' i Ha' Hne. apply cell_poke_ne.
    destruct (decide (a = a')) as [->|]; [|by left].
    right. destruct Hne as [Hne|[Hne|Hne]]; [done|done|lia].
  - apply Nat.ltb_ge in Hlt. eexists _, _. split; [done|].
    pose proof (view_length h s Hs) as Hvl.
    split.
    { apply heap_bytes_alloc; [done|]. apply Forall_app. split.
      - by apply view_bytes.
      - apply Forall_cons. split; [done|]. apply Forall_replicate.
        unfold is_byte. lia. }
    split.
    { split; simpl; [lia|]. eexists. split.
      - rewrite lookup_app_r by lia. by rewrite Nat.sub_diag.
      - rewrite length_app. simpl. rewrite length_replicate, Hvl. lia. }
    split; [done|]. split.
    { unfold view at 1, backing. simpl.
      rewrite lookup_app_r by lia. rewrite Nat.sub_diag. simpl.
      rewrite drop_0.
      rewrite cons_middle, app_assoc.
      apply take_app_length'. rewrite length_app, Hvl. simpl. lia. }
    split; [rewrite length_app; lia|]. split; [apply alloc_arrays|].
    split; [|right; eexists; split; [done|lia]].
    intros a i Ha _. by apply cell_alloc.
Qed.

Lemma load_spec s (i : nat) h :
  slice_valid h s -> (i < len s)%nat ->
  exists b, view h s !! i = Some b /\ load s (Z.of_nat i) h = Ok (b, h).
Proof.
  intros Hs Hi. unfold load.
  replace ((0 <=? Z.of_nat i) && (Z.of_nat i <? Z.of_nat (len s))) with true
    by (symmetry; apply andb_true_iff; split; [apply Z.leb_le|apply Z.ltb_lt]; lia).
  rewrite Nat2Z.id. rewrite view_lookup, decide_True by done.
  destruct Hs as [Hle Hb]. unfold backing, cell.
  destruct (base s) as [a|]; [|lia].
  destruct Hb as (arr & -> & Hlen). simpl.
  destruct (lookup_lt_is_Some_2 arr (off s + i)) as [b Hb]; [lia|].
  exists b. by rewrite Hb.
Qed.

Lemma store_spec s (i : nat) v h :
  heap_bytes h -> slice_valid h s -> (i < len s)%nat -> is_byte v ->
  exists h',
    store s (Z.of_nat i) v h = Ok (tt, h') /\
    heap_bytes h' /\ length h' = length h /\
    (forall a arr, h !! a = Some arr ->
       exists arr', h' !! a = Some arr' /\ length arr' = length arr) /\
    view h' s = <[i := v]> (view h s) /\
    (forall a j, base s <> Some a \/ j <> (off s + i)%nat ->
       cell h' a j = cell h a j) /\
    (forall a, base s = Some a -> cell h' a (off s + i) = Some v).
Proof.
  intros Hh Hs Hi Hv. unfold store.
  replace ((0 <=? Z.of_nat i) && (Z.of_nat i <? Z.of_nat (len s))) with true
    by (symmetry; apply andb_true_iff; split; [apply Z.leb_le|apply Z.ltb_lt]; lia).
  rewrite Nat2Z.id. pose proof (view_length h s Hs) as Hvl.
  destruct Hs as [Hle Hb].
  destruct (base s) as [a|] eqn:Hbase; [|lia].
  destruct Hb as (arr & Harr & Hlen).
  assert (is_Some (cell h a (off s + i))) as [b0 Hb0].
  { unfold cell. rewrite Harr. apply lookup_lt_is_Some. lia. }
  eexists. split; [done|].
  split; [by apply heap_bytes_poke|]. split; [apply poke_length|].
  split; [apply poke_arrays|]. split; [|split].
  - apply list_eq. intros k. rewrite list_lookup_insert, Hvl.
    rewrite !view_lookup, Hbase, cell_poke.
    destruct (decide (k < len s)%nat) as [Hk|Hk].
    + destruct (decide (i = k)) as [->|Hne].
      * rewrite !decide_True by done. by rewrite Hb0.
      * rewrite !decide_False by (intros [? ?]; lia). done.
    + rewrite decide_False by (intros [? ?]; lia). done.
  - intros a' j Hne. apply cell_poke_ne.
    destruct (decide (a = a')) as [->|]; [|by left].
    right. destruct Hne as [Hne|Hne]; [done|]. done.
  - intros a' [= <-]. by erewrite cell_poke_eq.
Qed.

End Primitives.

(** ** The stream primitives: [grow], [fillUnused] and moving the cursor *)

Lemma hasUnusedBits_true os : hasUnusedBits os = true <-> 1 <= pos os <= 7.
Proof.
  unfold hasUnusedBits. rewrite andb_true_iff, !Z.ltb_lt. lia.
Qed.

Lemma hasUnusedBits_false os : hasUnusedBits os = false <-> ~ 1 <= pos os <= 7.
Proof.
  rewrite <- hasUnusedBits_true. by destruct (hasUnusedBits os).
Qed.

Lemma full_unused os :
  hasUnusedBits os = true -> full os = (len (rawBuffer os) - 1)%nat.
Proof. unfold full. by intros ->. Qed.

Lemma full_aligned os :
  hasUnusedBits os = false -> full os = len (rawBuffer os).
Proof. unfold full. by intros ->. Qed.

Lemma full_le os : (full os <= len (rawBuffer os))%nat.
Proof. unfold full. destruct (hasUnusedBits os); lia. Qed.

Section StreamPrimitives.
Variable growcap : nat -> nat.

Lemma grow_spec os v np h :
  good os h -> is_byte v -> 1 <= np <= 8 ->
  exists os' h',
    grow growcap os v np h = Ok (os', h') /\
    good os' h' /\ evolves os h os' h' /\
    view h' (rawBuffer os') = view h (rawBuffer os) ++ [v] /\
    pos os' = np /\
    len (rawBuffer os') = S (len (rawBuffer os)).
Proof.
  intros (Hh & Hs & Hwf) Hv Hnp.
  destruct (go_append_spec growcap (rawBuffer os) v h Hh Hs Hv)
    as (s' & h' & Hrun & Hh' & Hs' & Hlen & Hview & Hl & Harr & Hfr & Hsucc).
  exists (Ostream s' np (bytesPool os)), h'.
  split.
  { unfold grow, bind, AppendByte. destruct (bytesPool os); by rewrite Hrun. }
  assert (wfpos (Ostream s' np (bytesPool os))) as Hwf'.
  { right. simpl. lia. }
  split; [done|]. split; [|done].
  assert (hasUnusedBits os = true -> (1 <= len (rawBuffer os))%nat) as Hne.
  { rewrite hasUnusedBits_true. destruct Hwf as [[_ ->]|[? _]]; lia. }
  constructor; simpl.
  - done.
  - done.
  - intros a i Ha Hc. apply Hfr; [done|].
    pose proof (full_le os). destruct Hs as [Hle _].
    destruct Hc as [?|[?|?]]; [by left|right; left; lia|right; right; lia].
  - intros a b Hb Hu Hc. exists b. split; [|apply top_eq_refl].
    rewrite <- Hc. apply Hfr; [by apply cell_lt in Hc|].
    right; left. rewrite full_unused by done. specialize (Hne Hu). lia.
  - done.
  - assert (len (rawBuffer os) <= full (Ostream s' np (bytesPool os)))%nat
      as Hfull.
    { unfold full. cbn [rawBuffer]. rewrite Hlen.
      destruct (hasUnusedBits (Ostream s' np (bytesPool os))); lia. }
    split.
    + pose proof (full_le os). lia.
    + intros Heq Hu. exfalso. specialize (Hne Hu).
      rewrite (full_unused os Hu) in Heq. lia.
  - intros i b Hb. exists b. rewrite Hview.
    split; [by apply lookup_app_l_Some|].
    split; [done|]. intros _ _. apply top_eq_refl.
Qed.

Lemma fillUnused_spec os v h :
  good os h -> hasUnusedBits os = true -> is_byte v ->
  exists l h',
    view h (rawBuffer os) !! (len (rawBuffer os) - 1)%nat = Some l /\
    fillUnused os v h = Ok (tt, h') /\
    good os h' /\ evolves os h os h' /\
    view h' (rawBuffer os) =
      <[(len (rawBuffer os) - 1)%nat := Z.lor l (Z.shiftr v (uint (pos os)))]>
        (view h (rawBuffer os)).
Proof.
  intros (Hh & Hs & Hwf) Hu Hv.
  pose proof (proj1 (hasUnusedBits_true os) Hu) as Hp.
  assert (1 <= len (rawBuffer os))%nat as Hlen
    by (destruct Hwf as [[_ ?]|[? _]]; lia).
  set (n := (len (rawBuffer os) - 1)%nat).
  assert (lastIndex os = Z.of_nat n) as Hlast
    by (unfold lastIndex, Len, n; lia).
  destruct (load_spec (rawBuffer os) n h Hs) as (l & Hl & Hload);
    [unfold n; lia|].
  assert (is_byte l) as Hbl.
  { eapply (proj1 (Forall_lookup _ _)); [by apply view_bytes|done]. }
  assert (is_byte (Z.lor l (Z.shiftr v (uint (pos os))))) as Hb'.
  { apply fill_is_byte; [done|done|]. rewrite uint_small; lia. }
  destruct (store_spec (rawBuffer os) n _ h Hh Hs ltac:(unfold n; lia) Hb')
    as (h' & Hstore & Hh' & Hl' & Harr & Hview & Hfr & Hnew).
  exists l, h'. split; [done|]. split.
  { unfold fillUnused, bind. rewrite Hlast, Hload. done. }
  assert (slice_valid h' (rawBuffer os)) as Hs'.
  { destruct Hs as [Hle Hb]. split; [done|].
    destruct (base (rawBuffer os)); [|done].
    destruct Hb as (arr & Ha & Hal).
    destruct (Harr _ _ Ha) as (arr' & ? & ?). exists arr'.
    split; [done|lia]. }
  split; [done|]. split; [|done].
  constructor.
  - lia.
  - done.
  - intros a i Ha Hc. apply Hfr. rewrite full_unused in Hc by done.
    fold n in Hc. destruct Hs as [Hle _].
    destruct Hc as [?|[?|?]]; [by left|right; lia|right; unfold n; lia].
  - intros a b Hb Hu' Hc. rewrite full_unused in * by done. fold n in Hc |- *.
    exists (Z.lor l (Z.shiftr v (uint (pos os)))).
    split; [by apply Hnew|].
    rewrite view_lookup, decide_True, Hb in Hl by (unfold n; lia).
    rewrite Hc in Hl. injection Hl as ->. by apply fill_top_eq.
  - by left.
  - apply region_le_refl.
  - intros i b Hb. rewrite Hview, list_lookup_insert.
    rewrite view_length by done. fold n.
    destruct (decide (n = i)) as [<-|Hne].
    + rewrite decide_True by (unfold n; lia). eexists. split; [done|].
      rewrite full_unused by done. fold n. split; [lia|].
      intros _ _. rewrite Hl in Hb. injection Hb as ->.
      by apply fill_top_eq.
    + rewrite decide_False by (intros [? ?]; done). exists b.
      split; [done|]. split; [done|]. intros _ _. apply top_eq_refl.
Qed.

Lemma bump_spec os h :
  good os h -> hasUnusedBits os = true ->
  let os' := Ostream (rawBuffer os) (pos os + 1) (bytesPool os) in
  good os' h /\ evolves os h os' h.
Proof.
  intros (Hh & Hs & Hwf) Hu os'.
  pose proof (proj1 (hasUnusedBits_true os) Hu) as Hp.
  assert (1 <= len (rawBuffer os))%nat as Hlen
    by (destruct Hwf as [[_ ?]|[? _]]; lia).
  split.
  { split; [done|]. split; [done|]. right. simpl. lia. }
  constructor; try done.
  - eauto.
  - intros a b _ _ Hb. exists b. split; [done|apply top_eq_refl].
  - by left.
  - split.
    + rewrite (full_unused os Hu). unfold full. cbn [rawBuffer os'].
      destruct (hasUnusedBits os'); lia.
    + intros Heq _. split; [|simpl; lia].
      rewrite (full_unused os Hu) in Heq.
      destruct (hasUnusedBits os') eqn:E; [done|].
      rewrite (full_aligned os' E) in Heq. simpl in Heq. lia.
  - intros i b Hb. exists b. split; [done|]. split; [done|].
    intros _ _. apply top_eq_refl.
Qed.

End StreamPrimitives.

(** ** [wrote] composes *)

Lemma wrote_refl os h : good os h -> wrote [] os h os h.
Proof.
  intros Hg. constructor; [done|apply evolves_refl|].
  intros Hp. by rewrite app_nil_r.
Qed.

Lemma wrote_trans r1 r2 os1 h1 os2 h2 os3 h3 :
  wrote r1 os1 h1 os2 h2 -> wrote r2 os2 h2 os3 h3 ->
  wrote (r1 ++ r2) os1 h1 os3 h3.
Proof.
  intros [G1 E1 B1] [G2 E2 B2]. constructor; [done|by eapply evolves_trans|].
  intros Hp. destruct (B1 Hp) as [Hp2 Hb2]. destruct (B2 Hp2) as [Hp3 Hb3].
  split; [done|]. by rewrite Hb3, Hb2, app_assoc.
Qed.

Lemma stream_bits_aligned os h :
  good os h -> hasUnusedBits os = false ->
  stream_bits h os = flat_map byte_bits (view h (rawBuffer os)).
Proof.
  intros (Hh & Hs & Hwf) Hu. unfold stream_bits.
  rewrite hasUnusedBits_false in Hu.
  destruct Hwf as [[Hl Hp]|[Hl Hp]].
  - pose proof (view_length _ _ Hs) as Hvl. rewrite Hl in Hvl.
    by destruct (view h (rawBuffer os)).
  - assert (pos os = 8) as -> by lia. apply committed_bits_full.
Qed.

Lemma stream_bits_unused os h l :
  good os h -> hasUnusedBits os = true ->
  view h (rawBuffer os) !! (len (rawBuffer os) - 1)%nat = Some l ->
  let bs := take (len (rawBuffer os) - 1) (view h (rawBuffer os)) in
  view h (rawBuffer os) = bs ++ [l] /\
  stream_bits h os = flat_map byte_bits bs ++ take (Z.to_nat (pos os)) (byte_bits l).
Proof.
  intros (Hh & Hs & Hwf) Hu Hl bs.
  assert (view h (rawBuffer os) = bs ++ [l]) as Hv.
  { apply snoc_view; [by apply view_length|done|].
    apply lookup_lt_Some in Hl. rewrite view_length in Hl by done.
    apply hasUnusedBits_true in Hu. destruct Hwf as [[_ ?]|[? _]]; lia. }
  split; [done|]. unfold stream_bits. rewrite Hv. apply committed_bits_snoc.
Qed.

Lemma insert_last (bs : list Z) l l' n :
  length bs = n -> <[n := l']> (bs ++ [l]) = bs ++ [l'].
Proof.
  intros <-. replace (length bs) with (length bs + 0)%nat by lia.
  by rewrite insert_app_r.
Qed.

Section Writes.
Variable growcap : nat -> nat.

Lemma WriteBit_spec os v h :
  good os h -> is_byte v ->
  exists os' h',
    WriteBit growcap os v h = Ok (os', h') /\
    wrote [Z.testbit v 0] os h os' h'.
Proof.
  intros Hg Hv. unfold WriteBit.
  pose proof (to_byte_is_byte (Z.shiftl v 7)) as Hvb.
  destruct (hasUnusedBits os) eqn:Hu; simpl.
  - destruct (fillUnused_spec os _ h Hg Hu Hvb)
      as (l & h1 & Hl & Hrun & Hg1 & He1 & Hview).
    destruct (bump_spec os h1 Hg1 Hu) as [Hg2 He2].
    eexists _, h1. split; [unfold bind; by rewrite Hrun|].
    constructor; [done|by eapply evolves_trans|].
    intros Hpad. specialize (Hpad Hu l Hl).
    pose proof (proj1 (hasUnusedBits_true os) Hu) as Hp.
    destruct (writebit_fill l v (pos os) Hv Hp Hpad) as [Hbits Hpad'].
    destruct (stream_bits_unused os h l Hg Hu Hl) as [Hsplit Hsb].
    assert (view h1 (rawBuffer os) =
            take (len (rawBuffer os) - 1) (view h (rawBuffer os)) ++
            [Z.lor l (Z.shiftr (to_byte (Z.shiftl v 7)) (uint (pos os)))])
      as Hview1.
    { rewrite Hview. rewrite Hsplit at 1. apply insert_last.
      rewrite length_take, view_length by apply Hg. lia. }
    split.
    + intros _ l1 Hl1 j Hj. simpl in *. rewrite Hview1 in Hl1.
      rewrite lookup_app_r in Hl1
        by (rewrite length_take, view_length by apply Hg; lia).
      rewrite length_take, view_length in Hl1 by apply Hg.
      replace (len (rawBuffer os) - 1 -
               (len (rawBuffer os) - 1) `min` len (rawBuffer os))%nat
        with 0%nat in Hl1 by lia.
      injection Hl1 as <-. by apply Hpad'.
    + rewrite Hsb. unfold stream_bits. simpl. rewrite Hview1.
      rewrite committed_bits_snoc, Hbits. by rewrite app_assoc.
  - destruct (grow_spec growcap os _ 1 h Hg Hvb ltac:(lia))
      as (os' & h' & Hrun & Hg' & He & Hview & Hpos & Hlen).
    exists os', h'. split; [done|]. constructor; [done|done|].
    intros _. destruct (writebit_first v) as [Hbits Hpad']. split.
    + intros _ l1 Hl1 j Hj. rewrite Hview, Hlen in Hl1.
      rewrite lookup_app_r in Hl1 by (rewrite view_length by apply Hg; lia).
      rewrite view_length in Hl1 by apply Hg.
      replace (S (len (rawBuffer os)) - 1 - len (rawBuffer os))%nat
        with 0%nat in Hl1 by lia.
      injection Hl1 as <-. apply Hpad'. lia.
    + rewrite (stream_bits_aligned os h Hg Hu). unfold stream_bits.
      by rewrite Hview, Hpos, committed_bits_snoc, Hbits.
Qed.

Lemma WriteByte_spec os v h :
  good os h -> is_byte v ->
  exists os' h',
    WriteByte growcap os v h = Ok (os', h') /\
    wrote (byte_bits v) os h os' h'.
Proof.
  intros Hg Hv. unfold WriteByte.
  destruct (hasUnusedBits os) eqn:Hu; simpl.
  - pose proof (proj1 (hasUnusedBits_true os) Hu) as Hp.
    destruct (fillUnused_spec os _ h Hg Hu Hv)
      as (l & h1 & Hl & Hrun & Hg1 & He1 & Hview).
    pose proof (to_byte_is_byte (Z.shiftl v (uint (8 - pos os)))) as Hvb.
    destruct (grow_spec growcap os _ (pos os) h1 Hg1 Hvb ltac:(lia))
      as (os' & h' & Hrun2 & Hg' & He2 & Hview2 & Hpos & Hlen).
    exists os', h'. split; [unfold bind; by rewrite Hrun|].
    constructor; [done|by eapply evolves_trans|].
    intros Hpad. specialize (Hpad Hu l Hl).
    destruct (writebyte_fill l v (pos os) Hv Hp Hpad) as [Hbits Hpad'].
    destruct (stream_bits_unused os h l Hg Hu Hl) as [Hsplit Hsb].
    assert (view h1 (rawBuffer os) =
            take (len (rawBuffer os) - 1) (view h (rawBuffer os)) ++
            [Z.lor l (Z.shiftr v (uint (pos os)))])
      as Hview1.
    { rewrite Hview. rewrite Hsplit at 1. apply insert_last.
      rewrite length_take, view_length by apply Hg. lia. }
    split.
    + intros _ l1 Hl1 j Hj. rewrite Hview2, Hlen in Hl1.
      rewrite lookup_app_r in Hl1 by (rewrite view_length by apply Hg1; lia).
      rewrite view_length in Hl1 by apply Hg1.
      replace (S (len (rawBuffer os)) - 1 - len (rawBuffer os))%nat
        with 0%nat in Hl1 by lia.
      injection Hl1 as <-. apply Hpad'. lia.
    + rewrite Hsb. unfold stream_bits. rewrite Hview2, Hpos, Hview1.
      rewrite committed_bits_snoc, flat_map_app. cbn [flat_map].
      rewrite app_nil_r, <- !app_assoc. by rewrite Hbits.
  - destruct (grow_spec growcap os v 8 h Hg Hv ltac:(lia))
      as (os' & h' & Hrun & Hg' & He & Hview & Hpos & Hlen).
    exists os', h'. split; [done|]. constructor; [done|done|].
    intros _. split.
    + intros Hu'. apply hasUnusedBits_true in Hu'. lia.
    + rewrite (stream_bits_aligned os h Hg Hu). unfold stream_bits.
      by rewrite Hview, Hpos, committed_bits_snoc.
Qed.

End Writes.

(** ** Bits of 64-bit words *)

Lemma to_uint64_is_uint64 x : is_uint64 (to_uint64 x).
Proof. unfold is_uint64, to_uint64. apply Z.mod_pos_bound. lia. Qed.

Lemma to_uint64_bit x j :
  0 <= j < 64 -> Z.testbit (to_uint64 x) j = Z.testbit x j.
Proof. intros Hj. unfold to_uint64. apply Z.mod_pow2_bits_low. lia. Qed.

Lemma shl64_bit v k j :
  0 <= j < 64 -> Z.testbit (to_uint64 (Z.shiftl v k)) j = Z.testbit v (j - k).
Proof. intros Hj. rewrite to_uint64_bit by done. apply Z.shiftl_spec. lia. Qed.

Lemma shl64_shl64 v a b :
  0 <= a -> 0 <= b ->
  to_uint64 (Z.shiftl (to_uint64 (Z.shiftl v a)) b) = to_uint64 (Z.shiftl v (a + b)).
Proof.
  intros Ha Hb. unfold to_uint64. rewrite !Z.shiftl_mul_pow2 by lia.
  rewrite Z.mul_mod_idemp_l by lia. rewrite Z.pow_add_r by lia.
  by rewrite Z.mul_assoc.
Qed.

Lemma top_bits_app v (a b : nat) :
  (a + b <= 64)%nat ->
  top_bits v (a + b) =
  top_bits v a ++ top_bits (to_uint64 (Z.shiftl v (Z.of_nat a))) b.
Proof.
  intros Hab. unfold top_bits. rewrite seq_app, map_app. f_equal.
  simpl. apply list_eq. intros i. rewrite !list_lookup_fmap.
  destruct (decide (i < b)%nat) as [Hi|Hi].
  - rewrite !lookup_seq_lt by done. simpl. f_equal.
    rewrite shl64_bit by lia. f_equal. lia.
  - rewrite !lookup_seq_ge by lia. done.
Qed.

Lemma top_bits_byte v : byte_bits (to_byte (Z.shiftr v 56)) = top_bits v 8.
Proof.
  rewrite byte_bits_unfold. unfold top_bits. cbn [seq map].
  each_bit; rewrite to_byte_bit by lia; by rewrite Z.shiftr_spec by lia.
Qed.

Lemma top_bits_bit v :
  [Z.testbit (to_byte (Z.land (Z.shiftr v 63) 1)) 0] = top_bits v 1.
Proof.
  unfold top_bits. cbn [seq map]. f_equal.
  rewrite to_byte_bit by lia. rewrite Z.land_spec, Z.shiftr_spec by lia.
  change (Z.testbit 1 0) with true. by rewrite andb_true_r.
Qed.

Lemma top_bits_low v (m : nat) :
  (m <= 64)%nat ->
  top_bits (to_uint64 (Z.shiftl v (64 - Z.of_nat m))) m = low_bits v m.
Proof.
  intros Hm. unfold top_bits, low_bits. apply list_eq. intros i.
  rewrite !list_lookup_fmap.
  destruct (decide (i < m)%nat) as [Hi|Hi].
  - rewrite !lookup_seq_lt by done. simpl. f_equal.
    rewrite shl64_bit by lia. f_equal. lia.
  - rewrite !lookup_seq_ge by lia. done.
Qed.

(** ** [WriteBits] and [WriteBytes] *)

Section Loops.
Variable growcap : nat -> nat.

Lemma WriteBits_bytes_eq fuel os v n :
  WriteBits_bytes growcap fuel os v n =
  if 8 <=? n
  then match fuel with
       | O => out_of_fuel
       | S fuel =>
           os <- WriteByte growcap os (to_byte (Z.shiftr v 56)) ;
           WriteBits_bytes growcap fuel os (to_uint64 (Z.shiftl v 8)) (n - 8)
       end
  else ret (os, v, n).
Proof. by destruct fuel. Qed.

Lemma WriteBits_bits_eq fuel os v n :
  WriteBits_bits growcap fuel os v n =
  if 0 <? n
  then match fuel with
       | O => out_of_fuel
       | S fuel =>
           os <- WriteBit growcap os (to_byte (Z.land (Z.shiftr v 63) 1)) ;
           WriteBits_bits growcap fuel os (to_uint64 (Z.shiftl v 1)) (n - 1)
       end
  else ret os.
Proof. by destruct fuel. Qed.

Lemma WriteBytes_loop_eq fuel os bytes i :
  WriteBytes_loop growcap fuel os bytes i =
  if i <? Z.of_nat (len bytes)
  then match fuel with
       | O => out_of_fuel
       | S fuel =>
           b <- load bytes i ;
           os <- WriteByte growcap os b ;
           WriteBytes_loop growcap fuel os bytes (i + 1)
       end
  else ret os.
Proof. by destruct fuel. Qed.

Lemma WriteBits_bytes_spec (q : nat) : forall fuel os v r h,
  good os h -> is_uint64 v -> 0 <= r < 8 -> (8 * q <= 64)%nat ->
  (q <= fuel)%nat ->
  exists os' h',
    WriteBits_bytes growcap fuel os v (8 * Z.of_nat q + r) h =
      Ok (os', to_uint64 (Z.shiftl v (8 * Z.of_nat q)), r, h') /\
    wrote (top_bits v (8 * q)) os h os' h'.
Proof.
  induction q as [|q IH]; intros fuel os v r h Hg Hv Hr Hq Hfuel;
    rewrite WriteBits_bytes_eq.
  - exists os, h. split; [|by apply wrote_refl].
    change (8 * Z.of_nat 0 + r) with r.
    replace (8 <=? r) with false by (symmetry; apply Z.leb_gt; lia).
    change (8 * Z.of_nat 0) with 0.
    rewrite Z.shiftl_0_r. unfold to_uint64. by rewrite Z.mod_small.
  - replace (8 <=? 8 * Z.of_nat (S q) + r) with true
      by (symmetry; apply Z.leb_le; lia).
    destruct fuel as [|fuel]; [lia|].
    destruct (WriteByte_spec growcap os (to_byte (Z.shiftr v 56)) h Hg
                (to_byte_is_byte _)) as (os1 & h1 & Hrun1 & Hw1).
    destruct (IH fuel os1 (to_uint64 (Z.shiftl v 8)) r h1)
      as (os2 & h2 & Hrun2 & Hw2);
      [apply Hw1|apply to_uint64_is_uint64|done|lia|lia|].
    exists os2, h2. split.
    + unfold bind. rewrite Hrun1.
      replace (8 * Z.of_nat (S q) + r - 8) with (8 * Z.of_nat q + r) by lia.
      rewrite Hrun2. rewrite shl64_shl64 by lia.
      by replace (8 + 8 * Z.of_nat q) with (8 * Z.of_nat (S q)) by lia.
    + replace (8 * S q)%nat with (8 + 8 * q)%nat by lia.
      rewrite top_bits_app by lia. rewrite <- top_bits_byte.
      by eapply wrote_trans.
Qed.

Lemma WriteBits_bits_spec (r : nat) : forall fuel os v h,
  good os h -> (r <= 64)%nat -> (r <= fuel)%nat ->
  exists os' h',
    WriteBits_bits growcap fuel os v (Z.of_nat r) h = Ok (os', h') /\
    wrote (top_bits v r) os h os' h'.
Proof.
  induction r as [|r IH]; intros fuel os v h Hg Hr Hfuel;
    rewrite WriteBits_bits_eq.
  - exists os, h. split; [done|by apply wrote_refl].
  - replace (0 <? Z.of_nat (S r)) with true by (symmetry; apply Z.ltb_lt; lia).
    destruct fuel as [|fuel]; [lia|].
    destruct (WriteBit_spec growcap os (to_byte (Z.land (Z.shiftr v 63) 1)) h
                Hg (to_byte_is_byte _)) as (os1 & h1 & Hrun1 & Hw1).
    destruct (IH fuel os1 (to_uint64 (Z.shiftl v 1)) h1)
      as (os2 & h2 & Hrun2 & Hw2); [apply Hw1|lia|lia|].
    exists os2, h2. split.
    + unfold bind. rewrite Hrun1.
      replace (Z.of_nat (S r) - 1) with (Z.of_nat r) by lia. done.
    + replace (S r) with (1 + r)%nat by lia.
      rewrite top_bits_app by lia. rewrite <- top_bits_bit.
      by eapply wrote_trans.
Qed.

Lemma WriteBits_spec os v n h :
  good os h -> is_uint64 v -> is_int n ->
  exists os' h',
    WriteBits growcap os v n h = Ok (os', h') /\
    wrote (low_bits v (Z.to_nat (Z.min n 64))) os h os' h'.
Proof.
  intros Hg Hv Hn. unfold WriteBits.
  destruct (n =? 0) eqn:E0.
  { apply Z.eqb_eq in E0. subst n. exists os, h.
    split; [done|by apply wrote_refl]. }
  apply Z.eqb_neq in E0.
  set (m := if 64 <? n then 64 else n).
  assert (m = Z.min n 64) as Hm.
  { unfold m. destruct (64 <? n) eqn:E; [apply Z.ltb_lt in E|apply Z.ltb_ge in E];
      lia. }
  destruct (decide (n < 0)) as [Hneg|Hpos].
  - exists os, h. split.
    + unfold bind. rewrite WriteBits_bytes_eq.
      replace (8 <=? m) with false by (symmetry; apply Z.leb_gt; lia).
      unfold ret. rewrite WriteBits_bits_eq.
      by replace (0 <? m) with false by (symmetry; apply Z.ltb_ge; lia).
    + replace (Z.to_nat (Z.min n 64)) with 0%nat by lia.
      by apply wrote_refl.
  - rewrite <- Hm.
    set (q := Z.to_nat (m / 8)). set (r := Z.to_nat (m mod 8)).
    assert (m = 8 * Z.of_nat q + Z.of_nat r) as Hqr.
    { unfold q, r. rewrite !Z2Nat.id by (try apply Z.div_pos; try apply Z.mod_pos_bound; lia).
      apply Z.div_mod. lia. }
    assert (0 <= Z.of_nat r < 8) as Hr.
    { unfold r. rewrite Z2Nat.id by (apply Z.mod_pos_bound; lia).
      apply Z.mod_pos_bound. lia. }
    set (v' := to_uint64 (Z.shiftl v (uint (64 - m)))).
    destruct (WriteBits_bytes_spec q (Z.to_nat m) os v' (Z.of_nat r) h)
      as (os1 & h1 & Hrun1 & Hw1);
      [done|apply to_uint64_is_uint64|done|lia|lia|].
    destruct (WriteBits_bits_spec r (Z.to_nat (Z.of_nat r)) os1
                (to_uint64 (Z.shiftl v' (8 * Z.of_nat q))) h1)
      as (os2 & h2 & Hrun2 & Hw2); [apply Hw1|lia|lia|].
    exists os2, h2. split.
    + unfold bind. rewrite Hqr at 2. rewrite Hrun1. done.
    + replace (Z.to_nat m) with (8 * q + r)%nat by lia.
      rewrite <- top_bits_low by lia.
      replace (64 - Z.of_nat (8 * q + r)) with (uint (64 - m))
        by (rewrite uint_small; lia).
      fold v'. rewrite top_bits_app by lia.
      replace (Z.of_nat (8 * q)) with (8 * Z.of_nat q) by lia.
      by eapply wrote_trans.
Qed.

End Loops.

(** ** Byte slices passed to [WriteBytes], and sequences of calls *)

Lemma evolves_slice_valid os h os' h' s :
  evolves os h os' h' -> slice_valid h s -> slice_valid h' s.
Proof.
  intros E [Hle Hb]. split; [done|]. destruct (base s); [|done].
  destruct Hb as (arr & Ha & Hl).
  destruct (ev_arrays _ _ _ _ E _ _ Ha) as (arr' & ? & ?).
  exists arr'. split; [done|lia].
Qed.

Lemma apart_evolves h os s os' h' :
  apart h os s -> evolves os h os' h' ->
  apart h' os' s /\ view h' s = view h s.
Proof.
  intros [Hs Hne] E. split; [split|].
  - by eapply evolves_slice_valid.
  - intros a Ha. destruct (ev_succ _ _ _ _ E) as [(Hb & _)|(a' & Hb & Hfresh)].
    + rewrite Hb. by apply Hne.
    + rewrite Hb. intros [= ->]. destruct Hs as [_ Hv]. rewrite Ha in Hv.
      destruct Hv as (arr & Harr & _). apply lookup_lt_Some in Harr. lia.
  - apply view_ext; [done|]. intros i Hi. rewrite !view_lookup.
    rewrite !decide_True by done. destruct (base s) as [a|] eqn:Ha; [|done].
    apply (ev_frame _ _ _ _ E).
    + destruct Hs as [_ Hv]. rewrite Ha in Hv.
      destruct Hv as (arr & Harr & _). by apply lookup_lt_Some in Harr.
    + left. by apply Hne.
Qed.

Lemma load_total s (i : nat) h :
  (i < len s)%nat ->
  exists b, load s (Z.of_nat i) h = Ok (b, h) /\
            (heap_bytes h -> is_byte b) /\
            (slice_valid h s -> view h s !! i = Some b).
Proof.
  intros Hi. unfold load.
  replace ((0 <=? Z.of_nat i) && (Z.of_nat i <? Z.of_nat (len s))) with true
    by (symmetry; apply andb_true_iff; split; [apply Z.leb_le|apply Z.ltb_lt]; lia).
  rewrite Nat2Z.id. eexists. split; [done|]. split.
  - intros Hh. unfold backing.
    destruct (base s) as [a|]; [|simpl; unfold is_byte; lia].
    destruct (h !! a) as [arr|] eqn:Ha; simpl; [|unfold is_byte; lia].
    destruct (arr !! (off s + i)%nat) as [b|] eqn:Hb; simpl;
      [|unfold is_byte; lia].
    apply (Hh a (off s + i)%nat). unfold cell. by rewrite Ha.
  - intros Hs. destruct (load_spec s i h Hs Hi) as (b & Hb & Hload).
    unfold load in Hload.
    replace ((0 <=? Z.of_nat i) && (Z.of_nat i <? Z.of_nat (len s))) with true
      in Hload
      by (symmetry; apply andb_true_iff; split; [apply Z.leb_le|apply Z.ltb_lt]; lia).
    rewrite Nat2Z.id in Hload. injection Hload as ->. done.
Qed.

Section Calls.
Variable growcap : nat -> nat.

Lemma WriteBytes_loop_spec bytes (k : nat) : forall fuel os (i : nat) h,
  good os h -> (i + k = len bytes)%nat -> (k <= fuel)%nat ->
  exists os' h' req,
    WriteBytes_loop growcap fuel os bytes (Z.of_nat i) h = Ok (os', h') /\
    wrote req os h os' h' /\
    length req = (8 * k)%nat /\
    (apart h os bytes -> req = flat_map byte_bits (drop i (view h bytes))).
Proof.
  induction k as [|k IH]; intros fuel os i h Hg Hik Hfuel;
    rewrite WriteBytes_loop_eq.
  - replace (Z.of_nat i <? Z.of_nat (len bytes)) with false
      by (symmetry; apply Z.ltb_ge; lia).
    exists os, h, []. split; [done|]. split; [by apply wrote_refl|].
    split; [done|]. intros [Hs _]. rewrite drop_ge; [done|].
    rewrite view_length by done. lia.
  - replace (Z.of_nat i <? Z.of_nat (len bytes)) with true
      by (symmetry; apply Z.ltb_lt; lia).
    destruct fuel as [|fuel]; [lia|].
    destruct (load_total bytes i h) as (b & Hload & Hb & Hview); [lia|].
    destruct (WriteByte_spec growcap os b h Hg (Hb (proj1 Hg)))
      as (os1 & h1 & Hrun1 & Hw1).
    destruct (IH fuel os1 (S i) h1) as (os2 & h2 & req & Hrun2 & Hw2 & Hlen & Hreq);
      [apply Hw1|lia|lia|].
    exists os2, h2, (byte_bits b ++ req). split.
    { unfold bind. rewrite Hload, Hrun1.
      by replace (Z.of_nat i + 1) with (Z.of_nat (S i)) by lia. }
    split; [by eapply wrote_trans|]. split.
    { rewrite length_app, byte_bits_length, Hlen. lia. }
    intros Hap.
    destruct (apart_evolves h os bytes os1 h1 Hap (wr_evolves _ _ _ _ _ Hw1))
      as [Hap1 Hv1].
    rewrite (Hreq Hap1), Hv1.
    rewrite (drop_S _ b i) by (apply Hview, Hap). done.
Qed.

Lemma WriteBytes_spec os bytes h :
  good os h ->
  exists os' h' req,
    WriteBytes growcap os bytes h = Ok (os', h') /\
    wrote req os h os' h' /\
    length req = (8 * len bytes)%nat /\
    (apart h os bytes -> req = flat_map byte_bits (view h bytes)).
Proof.
  intros Hg.
  destruct (WriteBytes_loop_spec bytes (len bytes) (len bytes) os 0 h)
    as (os' & h' & req & Hrun & Hw & Hlen & Hreq); [done|lia|lia|].
  exists os', h', req. by rewrite drop_0 in Hreq.
Qed.

Lemma low_bits_length v n : length (low_bits v n) = n.
Proof. unfold low_bits. by rewrite length_map, length_seq. Qed.

Lemma run_call_spec c os h :
  good os h -> call_typed c ->
  exists os' h' req,
    run_call growcap c os h = Ok (os', h') /\
    wrote req os h os' h' /\
    length req = call_nbits c /\
    (call_apart h os c -> req = requested h c).
Proof.
  intros Hg Ht. destruct c as [v|v|v n|bytes]; simpl in *.
  - destruct (WriteBit_spec growcap os v h Hg Ht) as (os' & h' & Hrun & Hw).
    by exists os', h', [Z.testbit v 0].
  - destruct (WriteByte_spec growcap os v h Hg Ht) as (os' & h' & Hrun & Hw).
    by exists os', h', (byte_bits v).
  - destruct Ht as [Hv Hn].
    destruct (WriteBits_spec growcap os v n h Hg Hv Hn) as (os' & h' & Hrun & Hw).
    exists os', h', (low_bits v (Z.to_nat (Z.min n 64))).
    by rewrite low_bits_length.
  - by apply WriteBytes_spec.
Qed.

Lemma call_apart_evolves h os c os' h' :
  call_apart h os c -> evolves os h os' h' ->
  call_apart h' os' c /\ requested h' c = requested h c.
Proof.
  intros Hap E. destruct c as [v|v|v n|bytes]; simpl in *; try done.
  destruct (apart_evolves _ _ _ _ _ Hap E) as [? ->]. done.
Qed.

Lemma run_calls_spec cs : forall os h,
  good os h -> Forall call_typed cs ->
  exists os' h' req,
    run_calls growcap cs os h = Ok (os', h') /\
    wrote req os h os' h' /\
    (Forall (call_apart h os) cs -> req = flat_map (requested h) cs).
Proof.
  induction cs as [|c cs IH]; intros os h Hg Ht.
  - exists os, h, []. split; [done|]. split; [by apply wrote_refl|done].
  - apply Forall_cons in Ht as [Ht Hts].
    destruct (run_call_spec c os h Hg Ht)
      as (os1 & h1 & r1 & Hrun1 & Hw1 & _ & Hr1).
    destruct (IH os1 h1 (wr_good _ _ _ _ _ Hw1) Hts)
      as (os2 & h2 & r2 & Hrun2 & Hw2 & Hr2).
    exists os2, h2, (r1 ++ r2). split.
    { simpl. unfold bind. by rewrite Hrun1. }
    split; [by eapply wrote_trans|].
    intros Hap. apply Forall_cons in Hap as [Hap Haps].
    cbn [flat_map]. rewrite (Hr1 Hap). f_equal.
    assert (Forall (fun c => call_apart h1 os1 c /\
                             requested h1 c = requested h c) cs) as Hall.
    { eapply Forall_impl; [exact Haps|]. intros c' Hc'.
      by eapply call_apart_evolves, wr_evolves. }
    rewrite Hr2 by (eapply Forall_impl; [exact Hall|]; by intros ? [? _]).
    clear -Hall. induction Hall as [|c' cs' [_ Heq] _ IH']; [done|].
    cbn [flat_map]. by rewrite Heq, IH'.
Qed.

End Calls.

(** ** A stream and its clone *)

Lemma evolves_extends os h os' h' : evolves os h os' h' -> extends os h os' h'.
Proof. intros []. by constructor. Qed.

Lemma extends_own os0 h0 X h X' h' :
  extends os0 h0 X h -> evolves X h X' h' -> extends os0 h0 X' h'.
Proof.
  intros [L R S V] E. pose proof (ev_length _ _ _ _ E) as L'.
  pose proof (ev_region _ _ _ _ E) as R'. constructor.
  - lia.
  - by eapply region_le_trans.
  - destruct S as [(Hb & Ho & Hc)|(a' & Hb & Hf)];
      destruct (ev_succ _ _ _ _ E) as [(Hb2 & Ho2 & Hc2)|(a2 & Hb2 & Hf2)].
    + left. repeat split; congruence.
    + right. exists a2. split; [done|lia].
    + right. exists a'. split; [congruence|done].
    + right. exists a2. split; [done|lia].
  - intros i b Hv. destruct (V i b Hv) as (b2 & Hv2 & Hlt & Heq).
    destruct (ev_view _ _ _ _ E i b2 Hv2) as (b3 & Hv3 & Hlt2 & Heq2).
    destruct R as [R1 R2]. exists b3. split; [done|]. split.
    + intros Hi. rewrite Hlt2 by lia. by apply Hlt.
    + intros -> Hu. destruct (decide (full X = full os0)) as [Ef|Nf].
      * destruct (R2 Ef Hu) as [Hu2 Hp].
        eapply top_eq_trans; [done|by apply Heq|by apply Heq2].
      * rewrite Hlt2 by lia. by apply Heq.
Qed.

Lemma evolves_cell_some os h os' h' a i b :
  evolves os h os' h' -> cell h a i = Some b -> is_Some (cell h' a i).
Proof.
  intros E Hc. unfold cell in *. destruct (h !! a) as [arr|] eqn:Ha; [|done].
  destruct (ev_arrays _ _ _ _ E _ _ Ha) as (arr' & -> & Hl).
  apply lookup_lt_is_Some. apply lookup_lt_Some in Hc. lia.
Qed.

Lemma extends_other os0 h0 X Y h Y' h' :
  slice_valid h0 (rawBuffer os0) ->
  good X h -> extends os0 h0 X h -> extends os0 h0 Y h -> sep os0 X Y ->
  evolves Y h Y' h' -> heap_bytes h' ->
  good X h' /\ extends os0 h0 X h' /\ sep os0 X Y'.
Proof.
  intros Hs0 (Hh & HsX & HwX) EX EY Hsep E Hh'.
  pose proof (ev_length _ _ _ _ E) as L'.
  assert (forall a, base (rawBuffer X) = Some a -> (a < length h)%nat) as HXlt.
  { intros a Ha. destruct HsX as [_ Hv]. rewrite Ha in Hv.
    destruct Hv as (arr & Harr & _). by apply lookup_lt_Some in Harr. }
  split; [|split].
  - split; [done|]. split; [by eapply evolves_slice_valid|done].
  - destruct EX as [L R S V]. constructor; [lia|done|done|].
    intros i b Hv. destruct (V i b Hv) as (b1 & Hv1 & Hlt & Heq).
    rewrite view_lookup in Hv1 |- *. case_decide as Hi; [|done].
    destruct (base (rawBuffer X)) as [a|] eqn:HbX in Hv1 |- *; [|done].
    destruct (decide (base (rawBuffer Y) = Some a)) as [HbY|HbY].
    + (* the two streams share the array of [os0] *)
      assert (base (rawBuffer X) = base (rawBuffer os0)) as Hb0
        by (apply Hsep; congruence).
      assert (off (rawBuffer X) = off (rawBuffer os0)) as HoX.
      { destruct S as [(_ & ? & _)|(a' & Ha' & Hf)]; [done|].
        rewrite HbX in Ha'. injection Ha' as <-.
        destruct Hs0 as [_ Hv0]. rewrite <- Hb0, HbX in Hv0.
        destruct Hv0 as (arr & Harr & _). apply lookup_lt_Some in Harr. lia. }
      assert (off (rawBuffer Y) = off (rawBuffer os0)) as HoY.
      { destruct (ex_succ _ _ _ _ EY) as [(_ & ? & _)|(a' & Ha' & Hf)]; [done|].
        rewrite HbY in Ha'. injection Ha' as <-.
        destruct Hs0 as [_ Hv0]. rewrite <- Hb0, HbX in Hv0.
        destruct Hv0 as (arr & Harr & _). apply lookup_lt_Some in Harr. lia. }
      destruct (ex_region _ _ _ _ EY) as [RY1 RY2].
      destruct (decide (i < full Y)%nat) as [HiY|HiY].
      * exists b1. split; [|done]. rewrite <- Hv1.
        apply (ev_frame _ _ _ _ E); [by apply HXlt|].
        right; left. rewrite HoX, HoY. lia.
      * destruct (decide (i = full os0 /\ full Y = full os0 /\
                          hasUnusedBits os0 = true)) as [(-> & EfY & Hu0)|Hno].
        -- destruct (RY2 EfY Hu0) as [HuY HpY].
           rewrite HoX, <- HoY, <- EfY in Hv1.
           destruct (ev_partial _ _ _ _ E a b1 HbY HuY Hv1) as (b2 & Hc2 & Ht2).
           exists b2. rewrite HoX, <- HoY, <- EfY. split; [done|].
           split; [lia|]. intros _ _.
           eapply top_eq_trans; [exact HpY|by apply Heq|done].
        -- destruct (evolves_cell_some _ _ _ _ a _ _ E Hv1) as [b2 Hc2].
           exists b2. split; [done|]. split; [lia|].
           intros -> Hu0. exfalso. apply Hno. split; [done|]. split; [lia|done].
    + exists b1. split; [|done]. rewrite <- Hv1.
      apply (ev_frame _ _ _ _ E); [by apply HXlt|]. by left.
  - intros Hb. destruct (ev_succ _ _ _ _ E) as [(Hb' & _)|(a' & Hb' & Hf)].
    + apply Hsep. congruence.
    + rewrite Hb' in Hb. specialize (HXlt a' Hb). lia.
Qed.

Lemma flat_map_bits_prefix (l1 l2 : list Z) :
  l1 `prefix_of` l2 -> flat_map byte_bits l1 `prefix_of` flat_map byte_bits l2.
Proof. intros [k ->]. rewrite flat_map_app. by apply prefix_app_r. Qed.

Lemma flat_map_bits_length (l : list Z) :
  length (flat_map byte_bits l) = (8 * length l)%nat.
Proof.
  induction l as [|x l IH]; [done|].
  cbn [flat_map length]. rewrite length_app, byte_bits_length, IH. lia.
Qed.

Lemma stream_bits_by_full os h :
  good os h ->
  stream_bits h os =
  flat_map byte_bits (take (full os) (view h (rawBuffer os))) ++ partial_bits h os.
Proof.
  intros Hg. unfold partial_bits. destruct (hasUnusedBits os) eqn:Hu.
  - destruct Hg as (Hh & Hs & Hwf).
    assert (1 <= len (rawBuffer os))%nat as Hlen.
    { apply hasUnusedBits_true in Hu. destruct Hwf as [[_ ?]|[? _]]; lia. }
    rewrite (full_unused os Hu).
    destruct (lookup_lt_is_Some_2 (view h (rawBuffer os))
                (len (rawBuffer os) - 1)) as [l Hl];
      [rewrite view_length by done; lia|].
    rewrite Hl. by apply stream_bits_unused.
  - rewrite (full_aligned os Hu), app_nil_r.
    rewrite take_ge by (rewrite view_length by apply Hg; lia).
    by apply stream_bits_aligned.
Qed.

Lemma stream_bits_length_le os h :
  good os h -> (length (stream_bits h os) <= 8 * len (rawBuffer os))%nat.
Proof.
  intros Hg. rewrite (stream_bits_by_full os h Hg).
  rewrite length_app, flat_map_bits_length, length_take.
  rewrite view_length by apply Hg. unfold partial_bits, full.
  destruct (hasUnusedBits os) eqn:Hu; simpl; [|lia].
  destruct Hg as (_ & _ & Hwf). apply hasUnusedBits_true in Hu.
  destruct (_ !! _); simpl; [|lia].
  rewrite length_take, byte_bits_length. destruct Hwf as [[_ ?]|[? _]]; lia.
Qed.

Lemma top_eq_take p b b' (k : nat) :
  top_eq p b b' -> Z.of_nat k <= p ->
  take k (byte_bits b) = take k (byte_bits b').
Proof.
  intros Ht Hk. unfold byte_bits. apply list_eq. intros i.
  destruct (decide (i < k)%nat) as [Hi|Hi].
  - rewrite !lookup_take_lt by done. rewrite !list_lookup_fmap.
    destruct (decide (i < 8)%nat) as [Hi8|Hi8].
    + rewrite lookup_seq_lt by done. simpl. f_equal. apply Ht. lia.
    + by rewrite lookup_seq_ge by lia.
  - by rewrite !lookup_take_ge by lia.
Qed.

Lemma agree_take (l0 l : list Z) (k : nat) :
  (k <= length l0)%nat ->
  (forall i b, l0 !! i = Some b ->
     exists b', l !! i = Some b' /\ ((i < k)%nat -> b' = b)) ->
  take k l = take k l0.
Proof.
  intros Hk Hag. apply list_eq. intros i.
  destruct (decide (i < k)%nat) as [Hi|Hi].
  - rewrite !lookup_take_lt by done.
    destruct (lookup_lt_is_Some_2 l0 i) as [b Hb]; [lia|].
    destruct (Hag i b Hb) as (b' & Hb' & Heq). rewrite Hb, Hb'.
    by rewrite Heq.
  - by rewrite !lookup_take_ge by lia.
Qed.

Lemma extends_prefix os0 h0 X h :
  good os0 h0 -> good X h -> extends os0 h0 X h ->
  stream_bits h0 os0 `prefix_of` stream_bits h X.
Proof.
  intros Hg0 HgX [L [R1 R2] S V].
  rewrite (stream_bits_by_full os0 h0 Hg0), (stream_bits_by_full X h HgX).
  pose proof (view_length _ _ (proj1 (proj2 Hg0))) as Hl0.
  pose proof (view_length _ _ (proj1 (proj2 HgX))) as HlX.
  pose proof (full_le os0) as Hf0. pose proof (full_le X) as HfX.
  set (v0 := view h0 (rawBuffer os0)) in *.
  set (vX := view h (rawBuffer X)) in *.
  assert (take (full os0) vX = take (full os0) v0) as Htake.
  { apply agree_take; [lia|]. intros i b Hb.
    destruct (V i b Hb) as (b' & Hb' & Hlt & _). eauto. }
  assert (take (full X) vX =
          take (full os0) v0 ++ drop (full os0) (take (full X) vX)) as Hsplit.
  { rewrite <- Htake. rewrite <- (take_drop (full os0) (take (full X) vX)) at 1.
    f_equal. rewrite take_take. f_equal. lia. }
  rewrite Hsplit, flat_map_app, <- app_assoc. apply prefix_app.
  unfold partial_bits at 1. fold v0. destruct (hasUnusedBits os0) eqn:Hu0;
    cbv iota; [|apply prefix_nil].
  destruct (v0 !! full os0) as [l0|] eqn:Hl; cbv iota; [|apply prefix_nil].
  destruct (V _ _ Hl) as (l' & Hl' & _ & Ht). specialize (Ht eq_refl eq_refl).
  apply hasUnusedBits_true in Hu0 as Hp0.
  rewrite (top_eq_take _ _ _ _ Ht) by lia.
  destruct (decide (full X = full os0)) as [Ef|Nf].
  - destruct (R2 Ef eq_refl) as [HuX Hp].
    rewrite Ef, drop_ge by (rewrite length_take; lia). simpl.
    unfold partial_bits. rewrite HuX, Ef. fold vX. rewrite Hl'.
    replace (Z.to_nat (pos os0)) with
      (Z.to_nat (pos os0) `min` Z.to_nat (pos X))%nat by lia.
    rewrite <- take_take. apply prefix_take.
  - apply prefix_app_r.
    assert (drop (full os0) (take (full X) vX) !! 0%nat = Some l') as Hd.
    { rewrite lookup_drop, Nat.add_0_r. rewrite lookup_take_lt by lia. done. }
    destruct (drop (full os0) (take (full X) vX)) as [|x rest]; [done|].
    injection Hd as ->. cbn [flat_map]. apply prefix_app_r, prefix_take.
Qed.

(** ** Reachable states *)

Lemma Reset_eq os buffer :
  Reset os buffer =
  Ostream buffer (if (0 <? len buffer)%nat then 8 else 0) (OStream.bytesPool os).
Proof. unfold Reset. by destruct (0 <? len buffer)%nat. Qed.

Lemma Reset_good os buffer h :
  heap_bytes h -> slice_valid h buffer ->
  good (Reset os buffer) h /\ padded (Reset os buffer) h.
Proof.
  intros Hh Hs. rewrite Reset_eq. split.
  - split; [done|]. split; [done|]. unfold wfpos. simpl.
    destruct (0 <? len buffer)%nat eqn:E.
    + apply Nat.ltb_lt in E. right. lia.
    + apply Nat.ltb_ge in E. left. lia.
  - intros Hu. apply hasUnusedBits_true in Hu. simpl in Hu.
    destruct (0 <? len buffer)%nat; lia.
Qed.

Lemma heap_bytes_nil : heap_bytes [].
Proof. by intros a i b. Qed.

Section Reachable.
Variable growcap : nat -> nat.

Lemma NewOStream_good bytes init pool h os h' :
  heap_bytes h -> slice_valid h bytes ->
  NewOStream bytes init pool h = Ok (os, h') ->
  good os h' /\ padded os h'.
Proof.
  intros Hh Hs. unfold NewOStream, bind. generalize initAllocSize. intros n.
  destruct ((cap bytes =? 0)%nat && init).
  - unfold make0, ret. intros [= <- <-]. apply Reset_good.
    + apply heap_bytes_alloc; [done|]. apply Forall_replicate.
      unfold is_byte. lia.
    + split; simpl; [lia|]. eexists. split.
      * rewrite lookup_app_r by lia. by rewrite Nat.sub_diag.
      * by rewrite length_replicate.
  - unfold ret. intros [= <- <-]. by apply Reset_good.
Qed.

Lemma reachable_good os h :
  reachable growcap os h -> good os h /\ padded os h.
Proof.
  induction 1 as [bytes init pool h os h' Hh Hs Hrun
                 |os h buffer _ [IHg IHp] Hs
                 |os h c os' h' _ [IHg IHp] Ht Hrun].
  - by eapply NewOStream_good.
  - apply Reset_good; [apply IHg|done].
  - destruct (run_call_spec growcap c os h IHg Ht)
      as (os1 & h1 & req & Hrun1 & Hw & _).
    rewrite Hrun in Hrun1. injection Hrun1 as <- <-.
    split; [apply Hw|]. by apply (wr_bits _ _ _ _ _ Hw).
Qed.

End Reachable.

Lemma land1_byte x : is_byte (Z.land x 1).
Proof.
  change 1 with (Z.ones 1). rewrite Z.land_ones by lia.
  pose proof (Z.mod_pos_bound x (2 ^ 1) ltac:(lia)). unfold is_byte. lia.
Qed.

Lemma bits_of_byte_typed v : Forall call_typed (bits_of_byte v).
Proof.
  unfold bits_of_byte. apply Forall_fmap, Forall_forall.
  intros i _. apply land1_byte.
Qed.

Lemma bits_of_byte_requested h v :
  flat_map (requested h) (bits_of_byte v) = byte_bits v.
Proof.
  rewrite byte_bits_unfold. unfold bits_of_byte.
  cbn [seq map fmap list_fmap flat_map requested app].
  each_bit; rewrite Z.land_spec, Z.shiftr_spec by lia;
    change (Z.testbit 1 0) with true; by rewrite andb_true_r.
Qed.

Lemma sep_refl os0 : sep os0 os0 os0.
Proof. by intros _. Qed.

Lemma sep_sym os0 X Y : sep os0 X Y -> sep os0 Y X.
Proof. unfold sep. intros H E. rewrite E. apply H. by symmetry. Qed.

Lemma Clone_eq os : Clone os = os.
Proof. by destruct os. Qed.

Lemma run_two_spec growcap os0 h0 ws : forall s c h,
  slice_valid h0 (rawBuffer os0) ->
  good s h -> good c h -> extends os0 h0 s h -> extends os0 h0 c h ->
  sep os0 s c -> Forall (fun w => call_typed w.2) ws ->
  exists s' c' h',
    run_two growcap ws s c h = Ok ((s', c'), h') /\
    good s' h' /\ good c' h' /\
    extends os0 h0 s' h' /\ extends os0 h0 c' h'.
Proof.
  induction ws as [|[[] w] ws IH]; intros s c h Hs0 Hgs Hgc Es Ec Hsep Ht.
  - by exists s, c, h.
  - apply Forall_cons in Ht as [Ht Hts]. simpl in Ht.
    destruct (run_call_spec growcap w s h Hgs Ht)
      as (s1 & h1 & req & Hrun & Hw & _).
    pose proof (wr_evolves _ _ _ _ _ Hw) as E.
    destruct (extends_other os0 h0 c s h s1 h1 Hs0 Hgc Ec Es
                (sep_sym _ _ _ Hsep) E (proj1 (wr_good _ _ _ _ _ Hw)))
      as (Hgc1 & Ec1 & Hsep1).
    destruct (IH s1 c h1 Hs0 (wr_good _ _ _ _ _ Hw) Hgc1
                (extends_own _ _ _ _ _ _ Es E) Ec1 (sep_sym _ _ _ Hsep1) Hts)
      as (s' & c' & h' & Hrun' & Hrest).
    exists s', c', h'. split; [|done]. simpl. unfold bind. by rewrite Hrun.
  - apply Forall_cons in Ht as [Ht Hts]. simpl in Ht.
    destruct (run_call_spec growcap w c h Hgc Ht)
      as (c1 & h1 & req & Hrun & Hw & _).
    pose proof (wr_evolves _ _ _ _ _ Hw) as E.
    destruct (extends_other os0 h0 s c h c1 h1 Hs0 Hgs Es Ec Hsep E
                (proj1 (wr_good _ _ _ _ _ Hw)))
      as (Hgs1 & Es1 & Hsep1).
    destruct (IH s c1 h1 Hs0 Hgs1 (wr_good _ _ _ _ _ Hw) Es1
                (extends_own _ _ _ _ _ _ Ec E) Hsep1 Hts)
      as (s' & c' & h' & Hrun' & Hrest).
    exists s', c', h'. split; [|done]. simpl. unfold bind. by rewrite Hrun.
Qed.

Lemma heap_bytes_Forall (h : heap) : Forall (Forall is_byte) h -> heap_bytes h.
Proof.
  intros Hall a i b. unfold cell.
  destruct (h !! a) as [arr|] eqn:Ha; [|done]. intros Hb.
  eapply (proj1 (Forall_lookup _ _)); [|exact Hb].
  eapply (proj1 (Forall_lookup _ _)); [exact Hall|exact Ha].
Defined.

Lemma Empty_true os :
  Empty os = true -> len (rawBuffer os) = 0%nat /\ pos os = 0.
Proof.
  unfold Empty, Len. rewrite andb_true_iff, !Z.eqb_eq. lia.
Qed.

(** ** Concrete runs *)

(** The bit 1, the three bits 101 and the byte 0xFF, written to a fresh
    stream: 1101 1111 1111 and four bits of padding. *)
Example run_mixed_writes :
  (os <- NewOStream nil_slice false None ;
   os <- WriteBit sample_growcap os 1 ;
   os <- WriteBits sample_growcap os 5 3 ;
   WriteByte sample_growcap os 255) [] =
  Ok (Ostream (Slice (Some 0%nat) 0 2 8) 4 None, [[223; 240; 0; 0; 0; 0; 0; 0]]).
Proof. reflexivity. Qed.

(** [fillUnused] on an empty buffer indexes element -1. *)
Example fillUnused_empty_panics :
  fillUnused (Ostream nil_slice 3 None) 255 [] = Panic.
Proof. reflexivity. Qed.

(** [append] within capacity writes into the shared array; beyond it, it
    moves to a fresh one. *)
Example append_in_place_then_fresh :
  (s <- go_append sample_growcap (Slice (Some 0%nat) 0 1 2) 7 ;
   go_append sample_growcap s 9) [[1; 0]] =
  Ok (Slice (Some 1%nat) 0 3 12, [[1; 7]; [1; 7; 9; 0; 0; 0; 0; 0; 0; 0; 0; 0]]).
Proof. reflexivity. Qed.

(** * The claims *)

(** ** Writing and reading back *)

(** C1, as the code has it: a stream that starts empty holds, after any
    sequence of WriteBit, WriteByte, WriteBits and WriteBytes calls in
    which every byte slice passed to WriteBytes lies in another array than
    the stream's buffer, exactly the bits the calls asked for, in call
    order and most significant bit first, up to [pos] in the last byte.
    The arguments have the values of their Go types. *)
Theorem written_bits_read_back growcap cs os h :
  heap_bytes h -> slice_valid h (rawBuffer os) -> Empty os = true ->
  Forall call_typed cs -> Forall (call_apart h os) cs ->
  exists os' h',
    run_calls growcap cs os h = Ok (os', h') /\
    stream_bits h' os' = flat_map (requested h) cs.
Proof.
  intros Hh Hs He Ht Hap. apply Empty_true in He as [Hlen Hpos].
  assert (good os h) as Hg by (split; [done|]; split; [done|]; by left).
  assert (padded os h) as Hp.
  { intros Hu. apply hasUnusedBits_true in Hu. lia. }
  destruct (run_calls_spec growcap cs os h Hg Ht)
    as (os' & h' & req & Hrun & Hw & Hreq).
  exists os', h'. split; [done|].
  destruct (wr_bits _ _ _ _ _ Hw Hp) as [_ ->]. rewrite (Hreq Hap).
  unfold stream_bits. pose proof (view_length _ _ Hs) as Hvl.
  rewrite Hlen in Hvl. by destruct (view h (rawBuffer os)).
Qed.

(** C1 fails as stated: WriteBytes reads its argument while it writes.  A
    stream over an empty slice of an array with room for eight bytes is
    given the byte 171 and the bits 101, and then WriteBytes on the two
    bytes 171, 160 that its own buffer now holds.  The first WriteByte
    fills the open byte, so the second element reads 181 when its turn
    comes, and the stream ends as 171, 181, 118, 160 instead of holding
    171, 101, 171, 160. *)
Lemma WriteBytes_on_own_buffer_differs :
  let h := [[171; 160; 0; 0; 0; 0; 0; 0]] in
  let os := Ostream (Slice (Some 0%nat) 0 0 8) 0 None in
  let raw := Slice (Some 0%nat) 0 2 8 in
  let cs := [CallWriteByte 171; CallWriteBits 5 3; CallWriteBytes raw] in
  Empty os = true /\ Forall call_typed cs /\
  exists s1 s2 h2,
    run_calls sample_growcap [CallWriteByte 171; CallWriteBits 5 3] os h
      = Ok (s1, h) /\
    Rawbytes s1 = (raw, 3) /\ view h raw = [171; 160] /\
    run_calls sample_growcap cs os h = Ok (s2, h2) /\
    view h2 (rawBuffer s2) = [171; 181; 118; 160] /\
    stream_bits h2 s2 <> flat_map (requested h) cs.
Proof.
  intros h os raw cs. split; [reflexivity|]. split.
  { constructor; [simpl; unfold is_byte; lia|].
    constructor; [simpl; unfold is_uint64, is_int; lia|].
    constructor; [exact I|constructor]. }
  eexists _, _, _.
  split; [vm_compute; reflexivity|]. split; [reflexivity|].
  split; [reflexivity|]. split; [vm_compute; reflexivity|].
  split; [reflexivity|]. vm_compute. by intros [=].
Qed.

(** C5: in a reachable state, WriteByte(v) leaves the same committed bits
    as eight WriteBit calls, one for each bit of [v] from the most
    significant to the least significant: the bits held before followed by
    the eight bits of [v]. *)
Theorem WriteByte_as_eight_WriteBit growcap os v h :
  reachable growcap os h -> is_byte v ->
  exists os1 h1 os2 h2,
    WriteByte growcap os v h = Ok (os1, h1) /\
    run_calls growcap (bits_of_byte v) os h = Ok (os2, h2) /\
    stream_bits h1 os1 = stream_bits h2 os2 /\
    stream_bits h1 os1 = stream_bits h os ++ byte_bits v.
Proof.
  intros Hr Hv. destruct (reachable_good growcap os h Hr) as [Hg Hp].
  destruct (WriteByte_spec growcap os v h Hg Hv) as (os1 & h1 & Hrun1 & Hw1).
  destruct (run_calls_spec growcap (bits_of_byte v) os h Hg
              (bits_of_byte_typed v)) as (os2 & h2 & req & Hrun2 & Hw2 & Hreq).
  exists os1, h1, os2, h2. split; [done|]. split; [done|].
  destruct (wr_bits _ _ _ _ _ Hw1 Hp) as [_ ->].
  destruct (wr_bits _ _ _ _ _ Hw2 Hp) as [_ ->].
  rewrite Hreq, bits_of_byte_requested; [done|].
  unfold bits_of_byte. apply Forall_fmap, Forall_forall. by intros.
Qed.

(** C6: Reset sets [pos] to 0 for an empty slice and to 8 for a non-empty
    one; after a Reset with a non-empty slice, the first call that writes
    at least one bit makes the buffer longer and changes no byte of the
    slice supplied, neither as the stream holds it nor as the caller sees
    it. *)
Theorem Reset_then_write_appends growcap os buffer h c :
  (len buffer = 0%nat -> pos (Reset os buffer) = 0) /\
  ((0 < len buffer)%nat ->
   pos (Reset os buffer) = 8 /\
   (heap_bytes h -> slice_valid h buffer -> call_typed c ->
    (0 < call_nbits c)%nat ->
    exists os' h',
      run_call growcap c (Reset os buffer) h = Ok (os', h') /\
      (len buffer < len (rawBuffer os'))%nat /\
      take (len buffer) (view h' (rawBuffer os')) = view h buffer /\
      view h' buffer = view h buffer)).
Proof.
  split.
  { intros Hl. rewrite Reset_eq, Hl. done. }
  intros Hl.
  assert (Reset os buffer = Ostream buffer 8 (OStream.bytesPool os)) as Hr.
  { rewrite Reset_eq. by replace (0 <? len buffer)%nat with true
      by (symmetry; by apply Nat.ltb_lt). }
  split; [by rewrite Hr|]. intros Hh Hs Ht Hn.
  destruct (Reset_good os buffer h Hh Hs) as [Hg Hp]. rewrite Hr in *.
  set (os1 := Ostream buffer 8 (OStream.bytesPool os)) in *.
  assert (hasUnusedBits os1 = false) as Hu by done.
  pose proof (full_aligned os1 Hu) as Hfull. simpl in Hfull.
  destruct (run_call_spec growcap c os1 h Hg Ht)
    as (os' & h' & req & Hrun & Hw & Hlen & _).
  exists os', h'. split; [done|].
  pose proof (wr_evolves _ _ _ _ _ Hw) as E.
  pose proof (view_length _ _ Hs) as Hvl.
  split; [|split].
  - destruct (wr_bits _ _ _ _ _ Hw Hp) as [_ Hb].
    pose proof (stream_bits_length_le os' h' (wr_good _ _ _ _ _ Hw)) as Hle.
    rewrite Hb, length_app, (stream_bits_aligned os1 h Hg Hu) in Hle.
    rewrite flat_map_bits_length in Hle. simpl in Hle. lia.
  - rewrite <- (take_ge (view h buffer) (len buffer)) by lia.
    apply agree_take; [lia|]. intros i b Hb.
    destruct (ev_view _ _ _ _ E i b Hb) as (b' & Hb' & Heq & _).
    exists b'. split; [done|]. rewrite Hfull in Heq. done.
  - apply view_ext; [done|]. intros i Hi. rewrite !view_lookup.
    rewrite !decide_True by done. destruct (base buffer) as [a|] eqn:Ha; [|done].
    apply (ev_frame _ _ _ _ E).
    + destruct Hs as [_ Hv]. rewrite Ha in Hv.
      destruct Hv as (arr & Harr & _). by apply lookup_lt_Some in Harr.
    + right; left. rewrite Hfull. simpl. lia.
Qed.

(** C10: a stream reachable from NewOStream or Reset by any writes has
    [0 <= pos <= 8] and a non-empty buffer whenever [pos > 0]; so the index
    [Len()-1] that fillUnused uses is within bounds whenever there are
    unused bits, and no write fails. *)
Theorem reachable_writes_never_fail growcap os h :
  reachable growcap os h ->
  (0 <= pos os <= 8 /\
   (0 < pos os -> 1 <= Len os) /\
   (hasUnusedBits os = true -> 0 <= lastIndex os < Len os)) /\
  forall c, call_typed c ->
    exists os' h', run_call growcap c os h = Ok (os', h').
Proof.
  intros Hr. destruct (reachable_good growcap os h Hr) as [Hg _]. split.
  - destruct Hg as (_ & _ & Hwf). unfold lastIndex, Len.
    rewrite hasUnusedBits_true. destruct Hwf as [[? ?]|[? ?]]; lia.
  - intros c Ht.
    destruct (run_call_spec growcap c os h Hg Ht) as (os' & h' & _ & Hrun & _).
    by exists os', h'.
Qed.

(** ** Bit counts out of range *)

(** C4: a WriteBits call for more than 64 bits does exactly what the call
    for 64 bits does, in every state, and it succeeds wherever the stream
    is usable. *)
Theorem WriteBits_clamps_to_64 growcap os v n h :
  64 < n ->
  WriteBits growcap os v n h = WriteBits growcap os v 64 h /\
  (good os h -> is_uint64 v ->
   exists os' h', WriteBits growcap os v n h = Ok (os', h')).
Proof.
  intros Hn.
  assert (WriteBits growcap os v n h = WriteBits growcap os v 64 h) as Heq.
  { unfold WriteBits.
    replace (n =? 0) with false by (symmetry; apply Z.eqb_neq; lia).
    by replace (64 <? n) with true by (symmetry; apply Z.ltb_lt; lia). }
  split; [done|]. intros Hg Hv. rewrite Heq.
  destruct (WriteBits_spec growcap os v 64 h Hg Hv) as (os' & h' & Hrun & _);
    [unfold is_int; lia|].
  by exists os', h'.
Qed.

(** C7: WriteBits(v, 0) returns at once: the stream (rawBuffer, hence
    Len(), and pos) and the store are what they were. *)
Theorem WriteBits_zero_noop growcap os v h :
  WriteBits growcap os v 0 h = Ok (os, h).
Proof. reflexivity. Qed.

(** C9: WriteBits(v, n) with [n < 0] ends without a panic and leaves the
    stream (rawBuffer, Len(), pos) and the store as they were: neither loop
    runs. *)
Theorem WriteBits_negative_noop growcap os v n h :
  n < 0 -> WriteBits growcap os v n h = Ok (os, h).
Proof.
  intros Hn. unfold WriteBits, bind.
  replace (n =? 0) with false by (symmetry; apply Z.eqb_neq; lia).
  replace (64 <? n) with false by (symmetry; apply Z.ltb_ge; lia).
  rewrite WriteBits_bytes_eq.
  replace (8 <=? n) with false by (symmetry; apply Z.leb_gt; lia).
  unfold ret. rewrite WriteBits_bits_eq.
  by replace (0 <? n) with false by (symmetry; apply Z.ltb_ge; lia).
Qed.

(** ** Clone *)

(** C2, as the code has it: Clone copies the slice header, so the clone and
    the original share the backing array.  Whatever is then written to
    either of them, in any order, every bit that was committed when the
    clone was made still reads the same from both.  Bits written after the
    clone was made are not covered. *)
Theorem clone_keeps_committed_bits growcap os h ws :
  good os h -> Forall (fun w => call_typed w.2) ws ->
  exists s' c' h',
    run_two growcap ws os (Clone os) h = Ok ((s', c'), h') /\
    stream_bits h os `prefix_of` stream_bits h' s' /\
    stream_bits h os `prefix_of` stream_bits h' c'.
Proof.
  intros Hg Ht. rewrite Clone_eq.
  pose proof (evolves_extends _ _ _ _ (evolves_refl os h)) as E.
  destruct (run_two_spec growcap os h ws os os h (proj1 (proj2 Hg)) Hg Hg E E
              (sep_refl os) Ht)
    as (s' & c' & h' & Hrun & Hgs & Hgc & Es & Ec).
  exists s', c', h'. split; [done|]. split; by apply extends_prefix.
Qed.

(** C2 fails as stated: a stream holds the bit 1 and is cloned; the clone
    writes 0 and holds 1,0; the original then writes 1 into the byte they
    share, and the clone reads 1,1.  A write to the original has changed a
    bit committed in the clone. *)
Lemma clone_writes_interfere :
  exists s h c1 h1 s2 h2,
    (os <- NewOStream nil_slice false None ; WriteBit sample_growcap os 1) []
      = Ok (s, h) /\
    WriteBit sample_growcap (Clone s) 0 h = Ok (c1, h1) /\
    stream_bits h1 c1 = [true; false] /\
    WriteBit sample_growcap s 1 h1 = Ok (s2, h2) /\
    stream_bits h2 c1 = [true; true].
Proof.
  eexists _, _, _, _, _, _.
  split; [vm_compute; reflexivity|].
  split; [vm_compute; reflexivity|].
  split; [vm_compute; reflexivity|].
  split; vm_compute; reflexivity.
Qed.

(** ** Options *)

(** C3, as the code has it: NewDatabaseOptions takes no input and returns
    no error, and a setter stores the duration it is given without looking
    at it, so none of them rejects anything. *)
Theorem options_setters_store_unchecked (o : Options.dbOptions) (v : Z) :
  Options.GetBufferPast (Options.BufferPast o v) = v /\
  Options.GetBufferFuture (Options.BufferFuture o v) = v /\
  Options.GetBlockSize (Options.BlockSize o v) = v /\
  Options.GetBufferDrain (Options.BufferDrain o v) = v /\
  Options.GetRetentionPeriod (Options.RetentionPeriod o v) = v /\
  Options.GetBlockSize (Options.BufferPast o v) = Options.GetBlockSize o /\
  Options.GetBlockSize (Options.BufferFuture o v) = Options.GetBlockSize o.
Proof. by repeat split. Qed.

(** C3 fails as stated: the default options with bufferPast set to three
    hours are an options value like any other, although bufferPast is not
    less than the block size of two hours; so are the options with a
    bufferDrain of zero. *)
Lemma options_accept_invalid :
  let o := Options.BufferPast (Options.NewDatabaseOptions "/tmp")
             (3 * Options.Hour) in
  let o' := Options.BufferDrain (Options.NewDatabaseOptions "/tmp") 0 in
  Options.GetBufferPast o = 3 * Options.Hour /\
  Options.GetBlockSize o = 2 * Options.Hour /\
  ConfigurationInvalid o /\
  Options.GetBufferDrain o' = 0 /\
  ConfigurationInvalid o'.
Proof.
  split; [reflexivity|]. split; [reflexivity|]. split.
  - left. vm_compute. by intros [=].
  - split; [reflexivity|]. do 5 right. left. vm_compute. by intros [=].
Qed.

(** C8: the options made by NewDatabaseOptions have a block size of two
    hours, a bufferPast of ten minutes, a bufferFuture of two minutes, a
    bufferDrain of one minute, a retention period of 48 hours and three
    flush retries. *)
Theorem NewDatabaseOptions_defaults (tempDir : string) :
  let o := Options.NewDatabaseOptions tempDir in
  Options.GetBlockSize o = 2 * Options.Hour /\
  Options.GetBufferPast o = 10 * Options.Minute /\
  Options.GetBufferFuture o = 2 * Options.Minute /\
  Options.GetBufferDrain o = 1 * Options.Minute /\
  Options.GetRetentionPeriod o = 48 * Options.Hour /\
  Options.GetMaxFlushRetries o = 3 /\
  Options.Hour = 3600000000000 /\ Options.Minute = 60000000000.
Proof. by repeat split. Qed.

(** ** The theorems at concrete inputs *)

Lemma sample_heap_bytes : heap_bytes [[171; 205]].
Proof.
  apply heap_bytes_Forall. repeat constructor; unfold is_byte; lia.
Defined.

Lemma sample_slice_valid : slice_valid [[171; 205]] (Slice (Some 0%nat) 0 2 2).
Proof. split; simpl; [lia|]. eexists. split; [reflexivity|]. simpl. lia. Defined.

Lemma nil_slice_valid h : slice_valid h nil_slice.
Proof. split; simpl; [lia|done]. Defined.

Lemma written_bits_read_back_witness :
  let h := [[171; 205]] in
  let os := Ostream nil_slice 0 None in
  let cs := [CallWriteBit 1; CallWriteBits 5 3;
             CallWriteBytes (Slice (Some 0%nat) 0 2 2); CallWriteByte 255] in
  heap_bytes h /\ slice_valid h (rawBuffer os) /\ Empty os = true /\
  Forall call_typed cs /\ Forall (call_apart h os) cs /\
  exists os' h',
    run_calls sample_growcap cs os h = Ok (os', h') /\
    stream_bits h' os' = flat_map (requested h) cs.
Proof.
  intros h os cs.
  assert (Forall call_typed cs) as Ht.
  { repeat constructor; simpl; unfold is_byte, is_uint64, is_int; lia. }
  assert (Forall (call_apart h os) cs) as Hap.
  { constructor; [exact I|]. constructor; [exact I|]. constructor.
    - split; [exact sample_slice_valid|]. intros a _ H. discriminate H.
    - constructor; [exact I|constructor]. }
  split; [exact sample_heap_bytes|]. split; [apply nil_slice_valid|].
  split; [reflexivity|]. split; [exact Ht|]. split; [exact Hap|].
  exact (written_bits_read_back sample_growcap cs os h sample_heap_bytes
           (nil_slice_valid h) eq_refl Ht Hap).
Defined.

Lemma sample_reachable :
  reachable sample_growcap (Ostream (Slice (Some 0%nat) 0 1 8) 3 None)
    [[160; 0; 0; 0; 0; 0; 0; 0]].
Proof.
  apply (reach_call sample_growcap (Ostream nil_slice 0 None) []
           (CallWriteBits 5 3)).
  - apply (reach_new sample_growcap nil_slice false None []).
    + exact heap_bytes_nil.
    + apply nil_slice_valid.
    + reflexivity.
  - simpl. unfold is_uint64, is_int. lia.
  - vm_compute. reflexivity.
Defined.

Lemma WriteByte_as_eight_WriteBit_witness :
  let os := Ostream (Slice (Some 0%nat) 0 1 8) 3 None in
  let h := [[160; 0; 0; 0; 0; 0; 0; 0]] in
  reachable sample_growcap os h /\ is_byte 167 /\
  exists os1 h1 os2 h2,
    WriteByte sample_growcap os 167 h = Ok (os1, h1) /\
    run_calls sample_growcap (bits_of_byte 167) os h = Ok (os2, h2) /\
    stream_bits h1 os1 = stream_bits h2 os2 /\
    stream_bits h1 os1 = stream_bits h os ++ byte_bits 167.
Proof.
  intros os h.
  assert (is_byte 167) as Hv by (unfold is_byte; lia).
  split; [exact sample_reachable|]. split; [exact Hv|].
  exact (WriteByte_as_eight_WriteBit sample_growcap os 167 h sample_reachable Hv).
Defined.

Lemma Reset_then_write_appends_witness :
  let h := [[171; 205]] in
  let buffer := Slice (Some 0%nat) 0 2 2 in
  let os := Ostream nil_slice 0 None in
  let c := CallWriteBit 1 in
  heap_bytes h /\ slice_valid h buffer /\ call_typed c /\
  (0 < call_nbits c)%nat /\ (0 < len buffer)%nat /\
  pos (Reset os buffer) = 8 /\
  exists os' h',
    run_call sample_growcap c (Reset os buffer) h = Ok (os', h') /\
    (len buffer < len (rawBuffer os'))%nat /\
    take (len buffer) (view h' (rawBuffer os')) = view h buffer /\
    view h' buffer = view h buffer.
Proof.
  intros h buffer os c.
  assert (call_typed c) as Ht by (simpl; unfold is_byte; lia).
  assert (0 < call_nbits c)%nat as Hn by (simpl; lia).
  assert (0 < len buffer)%nat as Hl by (simpl; lia).
  split; [exact sample_heap_bytes|]. split; [exact sample_slice_valid|].
  split; [exact Ht|]. split; [exact Hn|]. split; [exact Hl|].
  destruct (proj2 (Reset_then_write_appends sample_growcap os buffer h c) Hl)
    as [Hpos Hwrite].
  split; [exact Hpos|].
  exact (Hwrite sample_heap_bytes sample_slice_valid Ht Hn).
Defined.

Lemma reachable_writes_never_fail_witness :
  let os := Ostream (Slice (Some 0%nat) 0 1 8) 3 None in
  let h := [[160; 0; 0; 0; 0; 0; 0; 0]] in
  reachable sample_growcap os h /\
  (0 <= pos os <= 8 /\
   (0 < pos os -> 1 <= Len os) /\
   (hasUnusedBits os = true -> 0 <= lastIndex os < Len os)) /\
  forall c, call_typed c ->
    exists os' h', run_call sample_growcap c os h = Ok (os', h').
Proof.
  intros os h. split; [exact sample_reachable|].
  exact (reachable_writes_never_fail sample_growcap os h sample_reachable).
Defined.

Lemma WriteBits_clamps_to_64_witness :
  let os := Ostream nil_slice 0 None in
  64 < 70 /\
  WriteBits sample_growcap os 1 70 [] = WriteBits sample_growcap os 1 64 [] /\
  (good os [] -> is_uint64 1 ->
   exists os' h', WriteBits sample_growcap os 1 70 [] = Ok (os', h')).
Proof.
  intros os. assert (64 < 70) as Hn by lia. split; [exact Hn|].
  exact (WriteBits_clamps_to_64 sample_growcap os 1 70 [] Hn).
Defined.

Lemma WriteBits_negative_noop_witness :
  let os := Ostream (Slice (Some 0%nat) 0 1 8) 3 None in
  let h := [[160; 0; 0; 0; 0; 0; 0; 0]] in
  -3 < 0 /\ WriteBits sample_growcap os 5 (-3) h = Ok (os, h).
Proof.
  intros os h. assert (-3 < 0) as Hn by lia. split; [exact Hn|].
  exact (WriteBits_negative_noop sample_growcap os 5 (-3) h Hn).
Defined.

Lemma sample_good :
  good (Ostream (Slice (Some 0%nat) 0 1 8) 1 None) [[128; 0; 0; 0; 0; 0; 0; 0]].
Proof.
  split; [|split].
  - apply heap_bytes_Forall. repeat constructor; unfold is_byte; lia.
  - split; simpl; [lia|]. eexists. split; [reflexivity|]. simpl. lia.
  - right. simpl. lia.
Defined.

Lemma clone_keeps_committed_bits_witness :
  let os := Ostream (Slice (Some 0%nat) 0 1 8) 1 None in
  let h := [[128; 0; 0; 0; 0; 0; 0; 0]] in
  let ws := [(false, CallWriteBit 0); (true, CallWriteBit 1);
             (false, CallWriteBits 1023 10); (true, CallWriteByte 255)] in
  good os h /\ Forall (fun w => call_typed w.2) ws /\
  exists s' c' h',
    run_two sample_growcap ws os (Clone os) h = Ok ((s', c'), h') /\
    stream_bits h os `prefix_of` stream_bits h' s' /\
    stream_bits h os `prefix_of` stream_bits h' c'.
Proof.
  intros os h ws.
  assert (Forall (fun w => call_typed w.2) ws) as Ht.
  { repeat constructor; simpl; unfold is_byte, is_uint64, is_int; lia. }
  split; [exact sample_good|]. split; [exact Ht|].
  exact (clone_keeps_committed_bits sample_growcap os h ws sample_good Ht).
Defined.

(** * Further properties of the stream *)

(** ** Sequences of calls on a stream in use *)

Lemma run_calls_full_spec growcap cs : forall os h,
  good os h -> Forall call_typed cs ->
  exists os' h' req,
    run_calls growcap cs os h = Ok (os', h') /\
    wrote req os h os' h' /\
    length req = calls_nbits cs /\
    (Forall (call_apart h os) cs -> req = flat_map (requested h) cs).
Proof.
  induction cs as [|c cs IH]; intros os h Hg Ht.
  - exists os, h, []. split; [done|]. split; [by apply wrote_refl|done].
  - apply Forall_cons in Ht as [Ht Hts].
    destruct (run_call_spec growcap c os h Hg Ht)
      as (os1 & h1 & r1 & Hrun1 & Hw1 & Hl1 & Hr1).
    destruct (IH os1 h1 (wr_good _ _ _ _ _ Hw1) Hts)
      as (os2 & h2 & r2 & Hrun2 & Hw2 & Hl2 & Hr2).
    exists os2, h2, (r1 ++ r2). split.
    { simpl. unfold bind. by rewrite Hrun1. }
    split; [by eapply wrote_trans|]. split.
    { rewrite length_app, Hl1, Hl2. done. }
    intros Hap. apply Forall_cons in Hap as [Hap Haps].
    cbn [flat_map]. rewrite (Hr1 Hap). f_equal.
    assert (Forall (fun c => call_apart h1 os1 c /\
                             requested h1 c = requested h c) cs) as Hall.
    { eapply Forall_impl; [exact Haps|]. intros c' Hc'.
      by eapply call_apart_evolves, wr_evolves. }
    rewrite Hr2 by (eapply Forall_impl; [exact Hall|]; by intros ? [? _]).
    clear -Hall. induction Hall as [|c' cs' [_ Heq] _ IH']; [done|].
    cbn [flat_map]. by rewrite Heq, IH'.
Qed.

Lemma reachable_run_calls growcap cs : forall os h os' h',
  reachable growcap os h -> Forall call_typed cs ->
  run_calls growcap cs os h = Ok (os', h') ->
  reachable growcap os' h'.
Proof.
  induction cs as [|c cs IH]; intros os h os' h' Hr Ht Hrun.
  - injection Hrun as <- <-. done.
  - apply Forall_cons in Ht as [Ht Hts]. simpl in Hrun. unfold bind in Hrun.
    destruct (run_call growcap c os h) as [[os1 h1]| |] eqn:E; [|done|done].
    eapply IH; [|done|exact Hrun]. by eapply reach_call.
Qed.

(** X1: on a stream in any reachable state, also one resumed by Reset
    over earlier output, a sequence of calls in which every byte slice
    passed to WriteBytes lies in another array than the stream's buffer
    succeeds and adds exactly the bits asked for after the bits already
    held; the stream stays reachable. *)
Theorem reachable_calls_append growcap cs os h :
  reachable growcap os h ->
  Forall call_typed cs -> Forall (call_apart h os) cs ->
  exists os' h',
    run_calls growcap cs os h = Ok (os', h') /\
    stream_bits h' os' = stream_bits h os ++ flat_map (requested h) cs /\
    reachable growcap os' h'.
Proof.
  intros Hr Ht Hap. destruct (reachable_good growcap os h Hr) as [Hg Hp].
  destruct (run_calls_full_spec growcap cs os h Hg Ht)
    as (os' & h' & req & Hrun & Hw & _ & Hreq).
  exists os', h'. split; [done|]. split.
  - destruct (wr_bits _ _ _ _ _ Hw Hp) as [_ ->]. by rewrite (Hreq Hap).
  - by eapply reachable_run_calls.
Qed.

(** ** Counting bits *)

Lemma good_bit_count os h :
  good os h ->
  Z.of_nat (length (stream_bits h os)) =
  if Empty os then 0 else 8 * (Len os - 1) + pos os.
Proof.
  intros Hg. rewrite (stream_bits_by_full os h Hg).
  rewrite length_app, flat_map_bits_length, length_take.
  pose proof (view_length _ _ (proj1 (proj2 Hg))) as Hvl. rewrite Hvl.
  destruct Hg as (Hh & Hs & Hwf). unfold partial_bits, full, Empty, Len.
  destruct (hasUnusedBits os) eqn:Hu.
  - apply hasUnusedBits_true in Hu.
    assert (1 <= len (rawBuffer os))%nat by (destruct Hwf as [[_ ?]|[? _]]; lia).
    destruct (lookup_lt_is_Some_2 (view h (rawBuffer os))
                (len (rawBuffer os) - 1)) as [l Hl]; [lia|].
    rewrite Hl, length_take, byte_bits_length.
    replace (Z.of_nat (len (rawBuffer os)) =? 0) with false
      by (symmetry; apply Z.eqb_neq; lia).
    simpl andb. cbv iota. lia.
  - apply hasUnusedBits_false in Hu. destruct Hwf as [[Hl Hp]|[Hl Hp]].
    + rewrite Hl, Hp. done.
    + replace (Z.of_nat (len (rawBuffer os)) =? 0) with false
        by (symmetry; apply Z.eqb_neq; lia).
      simpl andb. cbv iota. simpl length. lia.
Qed.

(** X2: a reachable stream holds [8 * (Len() - 1) + pos] bits, none when it
    is empty; Empty() is true exactly when it holds no bit. *)
Theorem reachable_bit_count growcap os h :
  reachable growcap os h ->
  Z.of_nat (length (stream_bits h os)) =
    (if Empty os then 0 else 8 * (Len os - 1) + pos os) /\
  (Empty os = true <-> stream_bits h os = []).
Proof.
  intros Hr. destruct (reachable_good growcap os h Hr) as [Hg _].
  pose proof (good_bit_count os h Hg) as Hc. split; [done|].
  destruct Hg as (_ & _ & Hwf). split.
  - intros He. rewrite He in Hc. by destruct (stream_bits h os).
  - intros Hb. rewrite Hb in Hc. simpl in Hc.
    destruct (Empty os) eqn:He; [done|]. unfold Empty, Len in *.
    destruct Hwf as [[Hl Hp]|[Hl Hp]]; [|lia].
    rewrite Hl, Hp in He. done.
Qed.

(** X3: after calls that ask for [n] bits in all, a stream that started
    empty has [Len() = ceil(n / 8)], and [pos] counts the bits of the last
    byte that are in use: no byte is appended before the last one is
    full. *)
Theorem empty_stream_length growcap cs os h :
  heap_bytes h -> slice_valid h (rawBuffer os) -> Empty os = true ->
  Forall call_typed cs ->
  exists os' h',
    run_calls growcap cs os h = Ok (os', h') /\
    Len os' = (Z.of_nat (calls_nbits cs) + 7) / 8 /\
    pos os' = (if Z.of_nat (calls_nbits cs) =? 0 then 0
               else Z.of_nat (calls_nbits cs) - 8 * (Len os' - 1)).
Proof.
  intros Hh Hs He Ht. apply Empty_true in He as [Hlen Hpos].
  assert (good os h) as Hg by (split; [done|]; split; [done|]; by left).
  assert (padded os h) as Hp.
  { intros Hu. apply hasUnusedBits_true in Hu. lia. }
  destruct (run_calls_full_spec growcap cs os h Hg Ht)
    as (os' & h' & req & Hrun & Hw & Hl & _).
  exists os', h'. split; [done|].
  destruct (wr_bits _ _ _ _ _ Hw Hp) as [_ Hb].
  pose proof (good_bit_count os' h' (wr_good _ _ _ _ _ Hw)) as Hc.
  assert (stream_bits h os = []) as Hb0.
  { unfold stream_bits. pose proof (view_length _ _ Hs) as Hvl.
    rewrite Hlen in Hvl. by destruct (view h (rawBuffer os)). }
  rewrite Hb, Hb0 in Hc. cbn [app] in Hc. rewrite Hl in Hc.
  destruct (wr_good _ _ _ _ _ Hw) as (_ & _ & Hwf).
  unfold Empty, Len in *. set (n := Z.of_nat (calls_nbits cs)) in *.
  destruct Hwf as [[Hl' Hp']|[Hl' Hp']].
  - rewrite Hl', Hp' in Hc |- *. simpl in Hc. rewrite Hc. done.
  - replace (Z.of_nat (len (rawBuffer os')) =? 0) with false in Hc
      by (symmetry; apply Z.eqb_neq; lia).
    simpl in Hc. split.
    + apply Z.div_unique with (r := pos os' - 1); lia.
    + replace (n =? 0) with false by (symmetry; apply Z.eqb_neq; lia). lia.
Qed.

(** ** The raw bytes *)

Lemma low_bits_zero_mod l n :
  0 <= n -> (forall j, 0 <= j < n -> Z.testbit l j = false) -> l mod 2 ^ n = 0.
Proof.
  intros Hn Hz. apply Z.bits_inj'. intros j Hj. rewrite Z.bits_0.
  destruct (decide (j < n)) as [Hlt|Hge].
  - rewrite Z.mod_pow2_bits_low by lia. apply Hz. lia.
  - apply Z.mod_pow2_bits_high. lia.
Qed.

Lemma padded_byte_bits l p :
  1 <= p <= 8 ->
  (forall j, 0 <= j < 8 - p -> Z.testbit l j = false) ->
  byte_bits l = take (Z.to_nat p) (byte_bits l) ++ replicate (Z.to_nat (8 - p)) false.
Proof.
  intros Hp Hpad. rewrite byte_bits_unfold.
  destruct (decide (p = 8)) as [->|Hne]; [done|].
  pos_cases p; concrete_take; cbn [replicate]; each_bit; apply Hpad; lia.
Qed.

(** X4: the buffer Rawbytes hands out for a reachable stream holds bytes,
    and the bits of its last byte beyond [pos] are zero. *)
Theorem rawbytes_padding_zero growcap os h :
  reachable growcap os h ->
  Forall is_byte (view h (Rawbytes os).1) /\
  forall l, last (view h (Rawbytes os).1) = Some l ->
    l mod 2 ^ (8 - (Rawbytes os).2) = 0.
Proof.
  intros Hr. destruct (reachable_good growcap os h Hr) as [Hg Hp].
  simpl. split; [apply view_bytes, Hg|]. intros l Hl.
  rewrite last_lookup in Hl.
  rewrite view_length in Hl by apply Hg.
  replace (Init.Nat.pred (len (rawBuffer os))) with (len (rawBuffer os) - 1)%nat
    in Hl by lia.
  destruct Hg as (_ & Hs & Hwf).
  assert (1 <= pos os <= 8) as Hpos.
  { apply lookup_lt_Some in Hl. rewrite view_length in Hl by done.
    destruct Hwf as [[? _]|[_ ?]]; lia. }
  destruct (decide (pos os = 8)) as [->|Hne]; [apply Z.mod_1_r|].
  apply low_bits_zero_mod; [lia|]. apply (Hp ltac:(apply hasUnusedBits_true; lia) l Hl).
Qed.

(** X5: resuming from the raw bytes of a reachable, non-empty stream with
    Reset counts the whole last byte as written: the resumed stream holds
    the bits of the old one followed by [8 - pos] zero bits. *)
Theorem Reset_on_rawbytes growcap os h :
  reachable growcap os h -> Empty os = false ->
  let os' := Reset os (Rawbytes os).1 in
  stream_bits h os' =
    stream_bits h os ++ replicate (Z.to_nat (8 - pos os)) false /\
  reachable growcap os' h.
Proof.
  intros Hr He os'. destruct (reachable_good growcap os h Hr) as [Hg Hp].
  destruct Hg as (Hh & Hs & Hwf).
  assert ((1 <= len (rawBuffer os))%nat /\ 1 <= pos os <= 8) as [Hlen Hpos].
  { destruct Hwf as [[Hl Hq]|[? ?]]; [|done]. unfold Empty, Len in He.
    rewrite Hl, Hq in He. done. }
  split; [|by apply reach_reset].
  pose proof (view_length _ _ Hs) as Hvl.
  destruct (lookup_lt_is_Some_2 (view h (rawBuffer os))
              (len (rawBuffer os) - 1)) as [l Hl]; [lia|].
  pose proof (snoc_view _ _ l Hvl Hl Hlen) as Hsplit.
  assert (forall j, 0 <= j < 8 - pos os -> Z.testbit l j = false) as Hpad.
  { intros j Hj. apply (Hp ltac:(apply hasUnusedBits_true; lia) l Hl j Hj). }
  unfold os', stream_bits. rewrite Reset_eq. simpl.
  replace (0 <? len (rawBuffer os))%nat with true
    by (symmetry; apply Nat.ltb_lt; lia).
  rewrite committed_bits_full, Hsplit, flat_map_app, committed_bits_snoc.
  cbn [flat_map]. rewrite app_nil_r, <- app_assoc. f_equal.
  by apply padded_byte_bits.
Qed.

(** ** What a write leaves alone *)

(** X9: calls on a stream change no slice that lies in another array:
    after any sequence of calls such a slice reads as before and is still
    apart from the stream. *)
Theorem calls_leave_other_slices growcap cs os h s :
  good os h -> Forall call_typed cs -> apart h os s ->
  exists os' h',
    run_calls growcap cs os h = Ok (os', h') /\
    view h' s = view h s /\ apart h' os' s.
Proof.
  intros Hg Ht Hap.
  destruct (run_calls_full_spec growcap cs os h Hg Ht)
    as (os' & h' & req & Hrun & Hw & _).
  exists os', h'. split; [done|].
  destruct (apart_evolves h os s os' h' Hap (wr_evolves _ _ _ _ _ Hw)). done.
Qed.

(** X10: no call rewrites a byte that is committed in full (every byte
    but the last, and the last one too when [pos] is 8), and Len() never
    goes down. *)
Theorem committed_bytes_stay growcap cs os h :
  good os h -> Forall call_typed cs ->
  exists os' h',
    run_calls growcap cs os h = Ok (os', h') /\
    Len os <= Len os' /\
    take (full os) (view h' (rawBuffer os')) =
      take (full os) (view h (rawBuffer os)).
Proof.
  intros Hg Ht.
  destruct (run_calls_full_spec growcap cs os h Hg Ht)
    as (os' & h' & req & Hrun & Hw & _).
  exists os', h'. split; [done|].
  pose proof (wr_evolves _ _ _ _ _ Hw) as E.
  pose proof (view_length _ _ (proj1 (proj2 Hg))) as Hvl.
  pose proof (view_length _ _ (proj1 (proj2 (wr_good _ _ _ _ _ Hw)))) as Hvl'.
  split.
  - unfold Len. destruct (decide (len (rawBuffer os) = 0)%nat) as [->|Hne]; [lia|].
    destruct (lookup_lt_is_Some_2 (view h (rawBuffer os))
                (len (rawBuffer os) - 1)) as [b Hb]; [lia|].
    destruct (ev_view _ _ _ _ E _ _ Hb) as (b' & Hb' & _).
    apply lookup_lt_Some in Hb'. lia.
  - apply agree_take; [pose proof (full_le os); lia|]. intros i b Hb.
    destruct (ev_view _ _ _ _ E _ _ Hb) as (b' & Hb' & Heq & _). eauto.
Qed.

(** ** How the write operations relate *)

Lemma to_byte_ext a b :
  (forall j, 0 <= j < 8 -> Z.testbit a j = Z.testbit b j) ->
  to_byte a = to_byte b.
Proof.
  intros Hab. apply Z.bits_inj'. intros j Hj.
  destruct (decide (j < 8)) as [Hlt|Hge].
  - rewrite !to_byte_bit by lia. apply Hab. lia.
  - rewrite !(byte_high _ j (to_byte_is_byte _)) by lia. done.
Qed.

Lemma bind_ret_run {A} (m : M A) (h : heap) : (x <- m ; ret x) h = m h.
Proof. unfold bind, ret. by destruct (m h) as [[a h']| |]. Qed.

Section Relations.
Variable growcap : nat -> nat.

Lemma WriteBytes_loop_calls bytes (k : nat) : forall fuel os (i : nat) h,
  good os h -> apart h os bytes ->
  (i + k = len bytes)%nat -> (k <= fuel)%nat ->
  WriteBytes_loop growcap fuel os bytes (Z.of_nat i) h =
  run_calls growcap (map CallWriteByte (drop i (view h bytes))) os h.
Proof.
  induction k as [|k IH]; intros fuel os i h Hg Hap Hik Hfuel;
    rewrite WriteBytes_loop_eq.
  - replace (Z.of_nat i <? Z.of_nat (len bytes)) with false
      by (symmetry; apply Z.ltb_ge; lia).
    rewrite drop_ge; [done|]. rewrite view_length by apply Hap. lia.
  - replace (Z.of_nat i <? Z.of_nat (len bytes)) with true
      by (symmetry; apply Z.ltb_lt; lia).
    destruct fuel as [|fuel]; [lia|].
    destruct (load_total bytes i h) as (b & Hload & Hb & Hview); [lia|].
    rewrite (drop_S _ b i) by (apply Hview, Hap).
    cbn [map run_calls run_call]. unfold bind at 1. rewrite Hload.
    unfold bind.
    destruct (WriteByte_spec growcap os b h Hg (Hb (proj1 Hg)))
      as (os1 & h1 & Hrun1 & Hw1).
    rewrite Hrun1.
    destruct (apart_evolves h os bytes os1 h1 Hap (wr_evolves _ _ _ _ _ Hw1))
      as [Hap1 Hv1].
    replace (Z.of_nat i + 1) with (Z.of_nat (S i)) by lia.
    rewrite (IH fuel os1 (S i) h1 (wr_good _ _ _ _ _ Hw1) Hap1) by lia.
    by rewrite Hv1.
Qed.

(** X6: WriteBytes on a slice that lies in another array than the
    stream's buffer does exactly what one WriteByte call per element does,
    in order: same stream, same store. *)
Theorem WriteBytes_as_WriteByte_calls os bytes h :
  good os h -> apart h os bytes ->
  WriteBytes growcap os bytes h =
  run_calls growcap (map CallWriteByte (view h bytes)) os h.
Proof.
  intros Hg Hap. unfold WriteBytes. change 0 with (Z.of_nat 0).
  rewrite (WriteBytes_loop_calls bytes (len bytes) (len bytes) os 0 h)
    by (done || lia).
  by rewrite drop_0.
Qed.

(** X7: in every state, WriteBits(v, 8) is WriteByte(byte(v)) and
    WriteBits(v, 1) is WriteBit(Bit(v & 1)): same result, same stream, same
    store. *)
Theorem WriteBits_8_and_1 os v h :
  WriteBits growcap os v 8 h = WriteByte growcap os (to_byte v) h /\
  WriteBits growcap os v 1 h = WriteBit growcap os (to_byte (Z.land v 1)) h.
Proof.
  split.
  - unfold WriteBits. cbv iota beta. change (8 =? 0) with false.
    change (64 <? 8) with false. cbv iota.
    change (uint (64 - 8)) with 56. change (Z.to_nat 8) with 8%nat.
    unfold bind at 1. rewrite WriteBits_bytes_eq. change (8 <=? 8) with true.
    cbv iota. unfold bind at 1.
    assert (to_byte (Z.shiftr (to_uint64 (Z.shiftl v 56)) 56) = to_byte v) as ->.
    { apply to_byte_ext. intros j Hj. rewrite Z.shiftr_spec by lia.
      rewrite shl64_bit by lia. f_equal. lia. }
    destruct (WriteByte growcap os (to_byte v) h) as [[os1 h1]| |]; [|done|done].
    rewrite WriteBits_bytes_eq. change (8 - 8) with 0.
    change (8 <=? 0) with false. cbv iota. unfold ret at 1. cbv iota beta.
    change (Z.to_nat 0) with 0%nat. by rewrite WriteBits_bits_eq.
  - unfold WriteBits. change (1 =? 0) with false.
    change (64 <? 1) with false. cbv iota.
    change (uint (64 - 1)) with 63. change (Z.to_nat 1) with 1%nat.
    unfold bind at 1. rewrite WriteBits_bytes_eq. change (8 <=? 1) with false.
    cbv iota. unfold ret at 1. cbv iota beta.
    rewrite WriteBits_bits_eq. change (0 <? 1) with true. cbv iota.
    change (Z.to_nat 1) with 1%nat. cbv iota. unfold bind.
    assert (forall x y, to_byte (Z.shiftl x 7) = to_byte (Z.shiftl y 7) ->
            WriteBit growcap os x h = WriteBit growcap os y h) as Hsame.
    { intros x y Hxy. unfold WriteBit. by rewrite Hxy. }
    rewrite (Hsame (to_byte (Z.land (Z.shiftr (to_uint64 (Z.shiftl v 63)) 63) 1))
               (to_byte (Z.land v 1))).
    + destruct (WriteBit growcap os (to_byte (Z.land v 1)) h) as [[os1 h1]| |];
        [|done|done].
      rewrite WriteBits_bits_eq. by change (0 <? 1 - 1) with false.
    + apply to_byte_ext. intros j Hj. rewrite !Z.shiftl_spec by lia.
      destruct (decide (j = 7)) as [->|Hne].
      * change (7 - 7) with 0. rewrite !to_byte_bit by lia.
        rewrite !Z.land_spec, Z.shiftr_spec by lia. rewrite shl64_bit by lia.
        done.
      * rewrite !Z.testbit_neg_r by lia. done.
Qed.

End Relations.

Lemma low_bits_app v (a b : nat) :
  low_bits v (a + b) = low_bits (Z.shiftr v (Z.of_nat b)) a ++ low_bits v b.
Proof.
  unfold low_bits. apply list_eq. intros i.
  destruct (decide (i < a)%nat) as [Ha|Ha].
  - rewrite lookup_app_l by (by rewrite length_map, length_seq).
    rewrite !list_lookup_fmap, !lookup_seq_lt by lia. simpl. f_equal.
    rewrite Z.shiftr_spec by lia. f_equal. lia.
  - rewrite lookup_app_r by (rewrite length_map, length_seq; lia).
    rewrite length_map, length_seq, !list_lookup_fmap.
    destruct (decide (i < a + b)%nat) as [Hb|Hb].
    + rewrite !lookup_seq_lt by lia. simpl. f_equal. f_equal. lia.
    + by rewrite !lookup_seq_ge by lia.
Qed.

Lemma shiftr_uint64 v b : is_uint64 v -> 0 <= b -> is_uint64 (Z.shiftr v b).
Proof.
  intros [H0 H1] Hb. split; [by apply Z.shiftr_nonneg|].
  rewrite Z.shiftr_div_pow2 by done.
  apply Z.div_lt_upper_bound; [lia|].
  assert (1 <= 2 ^ b) by (apply Z.pow_le_mono_r with (b := 0); lia). nia.
Qed.

(** X8: on a reachable stream, writing the lowest [a + b] bits of [v] in
    one WriteBits call leaves the same bits as writing the upper [a] of
    them with WriteBits(v >> b, a) and then the lower [b] with
    WriteBits(v, b). *)
Theorem WriteBits_split growcap os v a b h :
  reachable growcap os h -> is_uint64 v ->
  0 <= a -> 0 <= b -> a + b <= 64 ->
  exists os1 h1 os2 h2,
    WriteBits growcap os v (a + b) h = Ok (os1, h1) /\
    run_calls growcap [CallWriteBits (Z.shiftr v b) a; CallWriteBits v b] os h
      = Ok (os2, h2) /\
    stream_bits h1 os1 = stream_bits h2 os2.
Proof.
  intros Hr Hv Ha Hb Hab. destruct (reachable_good growcap os h Hr) as [Hg Hp].
  destruct (WriteBits_spec growcap os v (a + b) h Hg Hv) as (os1 & h1 & Hrun1 & Hw1);
    [unfold is_int; lia|].
  destruct (run_calls_full_spec growcap
              [CallWriteBits (Z.shiftr v b) a; CallWriteBits v b] os h Hg)
    as (os2 & h2 & req & Hrun2 & Hw2 & _ & Hreq).
  { apply Forall_cons. split; [split; [by apply shiftr_uint64|unfold is_int; lia]|].
    apply Forall_cons. split; [split; [done|unfold is_int; lia]|constructor]. }
  exists os1, h1, os2, h2. split; [done|]. split; [done|].
  destruct (wr_bits _ _ _ _ _ Hw1 Hp) as [_ ->].
  destruct (wr_bits _ _ _ _ _ Hw2 Hp) as [_ ->].
  rewrite Hreq by (constructor; [exact I|constructor; [exact I|constructor]]).
  f_equal.
  cbn [flat_map requested]. rewrite app_nil_r.
  replace (Z.to_nat (Z.min (a + b) 64)) with (Z.to_nat a + Z.to_nat b)%nat by lia.
  replace (Z.min a 64) with a by lia. replace (Z.min b 64) with b by lia.
  rewrite low_bits_app. by rewrite Z2Nat.id.
Qed.

(** ** Allocation *)

Lemma fillUnused_length os v h u h' :
  fillUnused os v h = Ok (u, h') -> length h' = length h.
Proof.
  unfold fillUnused, bind, load, store.
  destruct ((0 <=? lastIndex os) && (lastIndex os <? Z.of_nat (len (rawBuffer os))));
    [|done].
  destruct (base (rawBuffer os)); intros [= _ <-]; [apply poke_length|done].
Qed.

Lemma grow_in_place growcap os v np h os' h' :
  (len (rawBuffer os) < cap (rawBuffer os))%nat ->
  slice_valid h (rawBuffer os) ->
  grow growcap os v np h = Ok (os', h') ->
  length h' = length h /\
  rawBuffer os' = Slice (base (rawBuffer os)) (off (rawBuffer os))
                    (S (len (rawBuffer os))) (cap (rawBuffer os)).
Proof.
  intros Hlt Hs. apply Nat.ltb_lt in Hlt as Hlt'.
  unfold grow, bind, AppendByte, go_append, ret. rewrite Hlt'.
  destruct (bytesPool os); destruct (base (rawBuffer os));
    intros [= <- <-]; rewrite ?poke_length; done.
Qed.

Lemma grow_moves growcap os v np h os' h' :
  (cap (rawBuffer os) <= len (rawBuffer os))%nat ->
  grow growcap os v np h = Ok (os', h') ->
  base (rawBuffer os') = Some (length h) /\
  (len (rawBuffer os') < cap (rawBuffer os') + 1)%nat /\
  h `prefix_of` h'.
Proof.
  intros Hge. apply Nat.ltb_ge in Hge as Hge'.
  unfold grow, bind, AppendByte, go_append, ret. rewrite Hge'.
  destruct (bytesPool os); intros [= <- <-]; simpl;
    (split; [done|]; split; [lia|]; by apply prefix_app_r).
Qed.

(** X11: while the buffer has spare capacity, WriteByte and WriteBit
    write into the array the stream already has: no array is allocated,
    and the buffer keeps its array, offset and capacity. *)
Theorem writes_within_capacity_in_place growcap os v h :
  good os h -> is_byte v ->
  (len (rawBuffer os) < cap (rawBuffer os))%nat ->
  exists os1 h1 os2 h2,
    WriteByte growcap os v h = Ok (os1, h1) /\
    WriteBit growcap os v h = Ok (os2, h2) /\
    length h1 = length h /\ length h2 = length h /\
    rawBuffer os1 = Slice (base (rawBuffer os)) (off (rawBuffer os))
                      (S (len (rawBuffer os))) (cap (rawBuffer os)) /\
    base (rawBuffer os2) = base (rawBuffer os) /\
    off (rawBuffer os2) = off (rawBuffer os) /\
    cap (rawBuffer os2) = cap (rawBuffer os).
Proof.
  intros Hg Hv Hlt.
  destruct (WriteByte_spec growcap os v h Hg Hv) as (os1 & h1 & Hrun1 & _).
  destruct (WriteBit_spec growcap os v h Hg Hv) as (os2 & h2 & Hrun2 & _).
  exists os1, h1, os2, h2. split; [done|]. split; [done|].
  unfold WriteByte in Hrun1. unfold WriteBit in Hrun2.
  destruct (hasUnusedBits os) eqn:Hu; simpl in Hrun1, Hrun2;
    unfold bind in Hrun1, Hrun2.
  - destruct (fillUnused os v h) as [[[] h0]| |] eqn:Ef; [|done|done].
    destruct (fillUnused os (to_byte (Z.shiftl v 7)) h) as [[[] h0']| |] eqn:Ef';
      [|done|done].
    apply fillUnused_length in Ef as Hl0. apply fillUnused_length in Ef'.
    destruct (fillUnused_spec os v h Hg Hu Hv) as (l & h0'' & _ & Hf & Hg0 & _).
    rewrite Ef in Hf. injection Hf as <-.
    destruct (grow_in_place _ _ _ _ _ _ _ Hlt (proj1 (proj2 Hg0)) Hrun1) as [Hl1 Hb1].
    injection Hrun2 as <- <-. simpl. repeat split; try done; lia.
  - destruct (grow_in_place _ _ _ _ _ _ _ Hlt (proj1 (proj2 Hg)) Hrun1) as [Hl1 Hb1].
    destruct (grow_in_place _ _ _ _ _ _ _ Hlt (proj1 (proj2 Hg)) Hrun2) as [Hl2 Hb2].
    rewrite Hb2. simpl. repeat split; done.
Qed.

(** X12: when the buffer is full and the stream is at a byte boundary,
    WriteByte and WriteBit move the stream to a freshly allocated array
    and leave the arrays that existed as they were. *)
Theorem writes_at_capacity_move growcap os v h :
  good os h -> is_byte v ->
  hasUnusedBits os = false ->
  (cap (rawBuffer os) <= len (rawBuffer os))%nat ->
  exists os1 h1 os2 h2,
    WriteByte growcap os v h = Ok (os1, h1) /\
    WriteBit growcap os v h = Ok (os2, h2) /\
    base (rawBuffer os1) = Some (length h) /\ h `prefix_of` h1 /\
    base (rawBuffer os2) = Some (length h) /\ h `prefix_of` h2.
Proof.
  intros Hg Hv Hu Hge.
  destruct (WriteByte_spec growcap os v h Hg Hv) as (os1 & h1 & Hrun1 & _).
  destruct (WriteBit_spec growcap os v h Hg Hv) as (os2 & h2 & Hrun2 & _).
  exists os1, h1, os2, h2. split; [done|]. split; [done|].
  unfold WriteByte in Hrun1. unfold WriteBit in Hrun2.
  rewrite Hu in Hrun1, Hrun2. simpl in Hrun1, Hrun2.
  destruct (grow_moves _ _ _ _ _ _ _ Hge Hrun1) as (? & _ & ?).
  destruct (grow_moves _ _ _ _ _ _ _ Hge Hrun2) as (? & _ & ?). done.
Qed.

(** X13: NewOStream never fails and never changes an existing array.  The
    stream it makes holds every bit of the bytes passed in, so it is empty
    exactly when no byte is passed; a buffer of 1024 bytes is allocated
    only when the slice passed has no capacity and the caller asks for
    it, and otherwise the slice passed is the buffer. *)
Theorem NewOStream_spec bytes init pool h :
  heap_bytes h -> slice_valid h bytes ->
  exists os h',
    NewOStream bytes init pool h = Ok (os, h') /\
    h `prefix_of` h' /\
    stream_bits h' os = flat_map byte_bits (view h bytes) /\
    (Empty os = true <-> len bytes = 0%nat) /\
    (if (cap bytes =? 0)%nat && init
     then cap (rawBuffer os) = initAllocSize /\
          base (rawBuffer os) = Some (length h)
     else rawBuffer os = bytes /\ h' = h).
Proof.
  intros Hh Hs. unfold NewOStream, bind, make0, ret.
  pose proof (view_length _ _ Hs) as Hvl.
  destruct ((cap bytes =? 0)%nat && init) eqn:E.
  - apply andb_true_iff in E as [E _]. apply Nat.eqb_eq in E.
    assert (len bytes = 0%nat) as Hl by (destruct Hs; lia).
    eexists _, _. split; [done|]. split; [by apply prefix_app_r|].
    rewrite Reset_eq. simpl. rewrite Hl in Hvl.
    destruct (view h bytes); [|done]. repeat split; done.
  - eexists _, _. split; [done|]. split; [done|].
    rewrite Reset_eq. simpl. unfold stream_bits, Empty, Len. simpl.
    destruct (0 <? len bytes)%nat eqn:El.
    + apply Nat.ltb_lt in El. rewrite committed_bits_full.
      repeat split; try done; try lia.
    + apply Nat.ltb_ge in El. assert (len bytes = 0%nat) as Hl by lia.
      rewrite Hl in Hvl |- *. destruct (view h bytes); [|done].
      repeat split; done.
Qed.

(** ** Cloning a stream whose buffer is full *)

Lemma slice_eq (s t : slice) :
  base s = base t -> off s = off t -> len s = len t -> cap s = cap t -> s = t.
Proof. destruct s, t. simpl. by intros -> -> -> ->. Qed.

Lemma valid_base_lt h s a :
  slice_valid h s -> base s = Some a -> (a < length h)%nat.
Proof.
  intros [_ Hv] Ha. rewrite Ha in Hv. destruct Hv as (arr & Harr & _).
  by apply lookup_lt_Some in Harr.
Qed.

Lemma step_untouched os Y hc Y1 h1 :
  wfpos os -> hasUnusedBits os = false ->
  (cap (rawBuffer os) <= len (rawBuffer os))%nat ->
  untouched os Y -> slice_valid hc (rawBuffer Y) ->
  evolves Y hc Y1 h1 -> good Y1 h1 ->
  base (rawBuffer Y1) = base (rawBuffer Y) ->
  untouched os Y1.
Proof.
  intros Hwf Hu Hfull [Hb Hp] HsY E (_ & [Hle _] & Hwf1) Hbase.
  destruct (ev_succ _ _ _ _ E) as [(_ & Ho & Hc)|(a' & Ha' & Hfresh)].
  - assert (hasUnusedBits Y = false) as HuY.
    { unfold hasUnusedBits in *. by rewrite Hp. }
    destruct (ev_region _ _ _ _ E) as [Hr _].
    rewrite (full_aligned Y HuY) in Hr. pose proof (full_le Y1) as Hf1.
    rewrite Hb in *.
    assert (len (rawBuffer Y1) = len (rawBuffer os)) as Hlen by lia.
    assert (full Y1 = len (rawBuffer Y1)) as Hfull1 by lia.
    split.
    + apply slice_eq; congruence.
    + apply hasUnusedBits_false in Hu. unfold full in Hfull1.
      destruct (hasUnusedBits Y1) eqn:Hu1.
      * apply hasUnusedBits_true in Hu1.
        destruct Hwf1 as [[? ?]|[? ?]]; lia.
      * apply hasUnusedBits_false in Hu1.
        destruct Hwf as [[? ?]|[? ?]]; destruct Hwf1 as [[? ?]|[? ?]]; lia.
  - exfalso. rewrite Hbase in Ha'.
    pose proof (valid_base_lt _ _ _ HsY Ha'). lia.
Qed.

Lemma other_view_same os X Y hc Y1 h1 :
  hasUnusedBits os = false ->
  slice_valid hc (rawBuffer X) ->
  base (rawBuffer X) <> base (rawBuffer Y) \/ (untouched os X /\ untouched os Y) ->
  evolves Y hc Y1 h1 ->
  view h1 (rawBuffer X) = view hc (rawBuffer X).
Proof.
  intros Hu HsX Hinv E. apply view_ext; [done|]. intros i Hi.
  rewrite !view_lookup, !decide_True by done.
  destruct (base (rawBuffer X)) as [a|] eqn:HbX; [|done].
  apply (ev_frame _ _ _ _ E); [by eapply valid_base_lt|].
  destruct Hinv as [Hne|[[HX _] [HY HpY]]].
  - left. congruence.
  - right; left. assert (hasUnusedBits Y = false) as HuY.
    { unfold hasUnusedBits in *. by rewrite HpY. }
    rewrite (full_aligned Y HuY), HY, <- HX. lia.
Qed.

Lemma call_apart_store os h os' h' X c :
  evolves os h os' h' -> call_apart h X c -> call_apart h' X c.
Proof.
  intros E. destruct c; simpl; try done. intros [Hs Hne].
  split; [by eapply evolves_slice_valid|done].
Qed.

Lemma calls_of_cons_same who w ws :
  calls_of who ((who, w) :: ws) = w :: calls_of who ws.
Proof. unfold calls_of. by rewrite filter_cons_True. Qed.

Lemma calls_of_cons_other who w ws :
  calls_of who ((negb who, w) :: ws) = calls_of who ws.
Proof.
  unfold calls_of. rewrite filter_cons_False; [done|]. simpl. by destruct who.
Qed.

Lemma step_keeps_other growcap os X Y hc w :
  wfpos os -> hasUnusedBits os = false ->
  (cap (rawBuffer os) <= len (rawBuffer os))%nat ->
  good X hc -> good Y hc -> padded X hc -> padded Y hc ->
  base (rawBuffer X) <> base (rawBuffer Y) \/ (untouched os X /\ untouched os Y) ->
  call_typed w -> call_apart hc Y w ->
  exists Y1 h1,
    run_call growcap w Y hc = Ok (Y1, h1) /\
    evolves Y hc Y1 h1 /\
    good X h1 /\ good Y1 h1 /\ padded X h1 /\ padded Y1 h1 /\
    (base (rawBuffer X) <> base (rawBuffer Y1) \/
     (untouched os X /\ untouched os Y1)) /\
    stream_bits h1 X = stream_bits hc X /\
    stream_bits h1 Y1 = stream_bits hc Y ++ requested hc w.
Proof.
  intros Hwf Hu Hfull HgX HgY HpX HpY Hinv Ht Hap.
  destruct (run_call_spec growcap w Y hc HgY Ht)
    as (Y1 & h1 & req & Hrun & Hw & _ & Hreq).
  pose proof (wr_evolves _ _ _ _ _ Hw) as E.
  pose proof (wr_good _ _ _ _ _ Hw) as HgY1.
  destruct (wr_bits _ _ _ _ _ Hw HpY) as [HpY1 Hbits].
  pose proof (other_view_same os X Y hc Y1 h1 Hu (proj1 (proj2 HgX)) Hinv E)
    as Hview.
  exists Y1, h1. split; [done|]. split; [done|].
  split.
  { split; [apply HgY1|]. split; [|apply HgX].
    eapply evolves_slice_valid; [exact E|apply HgX]. }
  split; [done|]. split.
  { unfold padded. rewrite Hview. exact HpX. }
  split; [done|]. split.
  - destruct (decide (base (rawBuffer Y1) = base (rawBuffer Y))) as [Hsame|Hmove].
    + destruct Hinv as [Hne|[HuX HuY]].
      * left. congruence.
      * right. split; [done|].
        eapply step_untouched; try done. apply HgY.
    + left. destruct (ev_succ _ _ _ _ E) as [(Hb & _)|(a' & Ha' & Hfresh)]; [done|].
      rewrite Ha'. intros HbX.
      pose proof (valid_base_lt _ _ _ (proj1 (proj2 HgX)) HbX). lia.
  - split.
    + unfold stream_bits. by rewrite Hview.
    + by rewrite Hbits, (Hreq Hap).
Qed.

Lemma run_two_independent growcap os h ws : forall s c hc,
  wfpos os -> hasUnusedBits os = false ->
  (cap (rawBuffer os) <= len (rawBuffer os))%nat ->
  good s hc -> good c hc -> padded s hc -> padded c hc ->
  base (rawBuffer s) <> base (rawBuffer c) \/ (untouched os s /\ untouched os c) ->
  Forall (fun w => call_typed w.2) ws ->
  Forall (fun w => call_apart hc s w.2 /\ call_apart hc c w.2 /\
                   requested hc w.2 = requested h w.2) ws ->
  exists s' c' h',
    run_two growcap ws s c hc = Ok ((s', c'), h') /\
    stream_bits h' s' =
      stream_bits hc s ++ flat_map (requested h) (calls_of true ws) /\
    stream_bits h' c' =
      stream_bits hc c ++ flat_map (requested h) (calls_of false ws).
Proof.
  induction ws as [|[who w] ws IH];
    intros s c hc Hwf Hu Hfull Hgs Hgc Hps Hpc Hinv Ht Hap.
  - exists s, c, hc. split; [done|]. cbn. by rewrite !app_nil_r.
  - apply Forall_cons in Ht as [Ht Hts]. simpl in Ht.
    apply Forall_cons in Hap as [(Haps & Hapc & Hreq) Haps']. simpl in *.
    destruct who.
    + destruct (step_keeps_other growcap os c s hc w Hwf Hu Hfull Hgc Hgs Hpc Hps)
        as (s1 & h1 & Hrun & E & Hgc1 & Hgs1 & Hpc1 & Hps1 & Hinv1 & Hbc & Hbs);
        [destruct Hinv as [?|[? ?]]; [left; congruence|by right]|done|done|].
      destruct (IH s1 c h1 Hwf Hu Hfull Hgs1 Hgc1 Hps1 Hpc1)
        as (s' & c' & h' & Hrun' & Hs' & Hc'); [|done| |].
      { destruct Hinv1 as [?|[? ?]]; [left; congruence|by right]. }
      { eapply Forall_impl; [exact Haps'|]. intros [? w'] (A1 & A2 & A3).
        simpl in *.
        destruct (call_apart_evolves hc s w' s1 h1 A1 E) as [B1 B2].
        split; [done|]. split; [by eapply call_apart_store|congruence]. }
      exists s', c', h'. split; [cbn [run_two]; unfold bind; by rewrite Hrun|].
      rewrite (calls_of_cons_same true), (calls_of_cons_other false).
      cbn [flat_map]. rewrite Hs', Hc', Hbs, Hbc, Hreq. by rewrite app_assoc.
    + destruct (step_keeps_other growcap os s c hc w Hwf Hu Hfull Hgs Hgc Hps Hpc)
        as (c1 & h1 & Hrun & E & Hgs1 & Hgc1 & Hps1 & Hpc1 & Hinv1 & Hbs & Hbc);
        [done|done|done|].
      destruct (IH s c1 h1 Hwf Hu Hfull Hgs1 Hgc1 Hps1 Hpc1)
        as (s' & c' & h' & Hrun' & Hs' & Hc'); [done|done| |].
      { eapply Forall_impl; [exact Haps'|]. intros [? w'] (A1 & A2 & A3).
        simpl in *.
        destruct (call_apart_evolves hc c w' c1 h1 A2 E) as [B1 B2].
        split; [by eapply call_apart_store|]. split; [done|congruence]. }
      exists s', c', h'. split; [cbn [run_two]; unfold bind; by rewrite Hrun|].
      rewrite (calls_of_cons_same false), (calls_of_cons_other true).
      cbn [flat_map]. rewrite Hs', Hc', Hbs, Hbc, Hreq. by rewrite app_assoc.
Qed.

(** X14: a clone of a reachable stream whose buffer is full ([len = cap])
    and that stands at a byte boundary is independent of the original:
    the first write to either moves it to an array of its own.  So after
    any interleaving of calls in which every byte slice passed to
    WriteBytes exists when the clone is made and lies in another array
    than the stream's buffer, each of the two holds the bits held at clone
    time followed by exactly the bits its own calls asked for. *)
Theorem clone_of_full_buffer_independent growcap os h ws :
  reachable growcap os h ->
  hasUnusedBits os = false ->
  (cap (rawBuffer os) <= len (rawBuffer os))%nat ->
  Forall (fun w => call_typed w.2) ws ->
  Forall (fun w => call_apart h os w.2) ws ->
  exists s' c' h',
    run_two growcap ws os (Clone os) h = Ok ((s', c'), h') /\
    stream_bits h' s' =
      stream_bits h os ++ flat_map (requested h) (calls_of true ws) /\
    stream_bits h' c' =
      stream_bits h os ++ flat_map (requested h) (calls_of false ws).
Proof.
  intros Hr Hu Hfull Ht Hap. rewrite Clone_eq.
  destruct (reachable_good growcap os h Hr) as [Hg Hp].
  apply (run_two_independent growcap os h ws os os h); try done.
  - apply Hg.
  - by right.
  - eapply Forall_impl; [exact Hap|]. by intros [? w'] A.
Qed.

(** * Further properties of the options *)

(** X15: the setters of the five window durations act on one field each:
    two calls on different fields give the same options in either order,
    and of two calls on the same field the second one counts. *)
Theorem window_setters_commute (o : Options.dbOptions) (a b : Z) :
  (Options.BlockSize (Options.BufferPast o a) b =
     Options.BufferPast (Options.BlockSize o b) a /\
   Options.BlockSize (Options.BufferFuture o a) b =
     Options.BufferFuture (Options.BlockSize o b) a /\
   Options.BlockSize (Options.BufferDrain o a) b =
     Options.BufferDrain (Options.BlockSize o b) a /\
   Options.BlockSize (Options.RetentionPeriod o a) b =
     Options.RetentionPeriod (Options.BlockSize o b) a /\
   Options.BufferPast (Options.BufferFuture o a) b =
     Options.BufferFuture (Options.BufferPast o b) a /\
   Options.BufferPast (Options.BufferDrain o a) b =
     Options.BufferDrain (Options.BufferPast o b) a /\
   Options.BufferPast (Options.RetentionPeriod o a) b =
     Options.RetentionPeriod (Options.BufferPast o b) a /\
   Options.BufferFuture (Options.BufferDrain o a) b =
     Options.BufferDrain (Options.BufferFuture o b) a /\
   Options.BufferFuture (Options.RetentionPeriod o a) b =
     Options.RetentionPeriod (Options.BufferFuture o b) a /\
   Options.BufferDrain (Options.RetentionPeriod o a) b =
     Options.RetentionPeriod (Options.BufferDrain o b) a) /\
  (Options.BlockSize (Options.BlockSize o a) b = Options.BlockSize o b /\
   Options.BufferPast (Options.BufferPast o a) b = Options.BufferPast o b /\
   Options.BufferFuture (Options.BufferFuture o a) b =
     Options.BufferFuture o b /\
   Options.BufferDrain (Options.BufferDrain o a) b = Options.BufferDrain o b /\
   Options.RetentionPeriod (Options.RetentionPeriod o a) b =
     Options.RetentionPeriod o b).
Proof. by repeat split. Qed.

(** X16: the options made by NewDatabaseOptions have buffer future and
    buffer past below the block size, and neither EncodingTszPooled nor a
    setter of another field than those three changes whether options do. *)
Theorem window_ok_defaults_and_frame (tempDir : string) (o : Options.dbOptions)
    (n m : Z) (x : Options.handle) (p : string) :
  window_ok (Options.NewDatabaseOptions tempDir) /\
  (window_ok (Options.EncodingTszPooled o n m) <-> window_ok o) /\
  (window_ok (Options.BufferDrain o n) <-> window_ok o) /\
  (window_ok (Options.RetentionPeriod o n) <-> window_ok o) /\
  (window_ok (Options.BufferBucketAllocSize o n) <-> window_ok o) /\
  (window_ok (Options.DatabaseBlockAllocSize o n) <-> window_ok o) /\
  (window_ok (Options.MaxFlushRetries o n) <-> window_ok o) /\
  (window_ok (Options.FilePathPrefix o p) <-> window_ok o) /\
  (window_ok (Options.Logger o x) <-> window_ok o) /\
  (window_ok (Options.MetricsScope o x) <-> window_ok o) /\
  (window_ok (Options.NowFn o x) <-> window_ok o) /\
  (window_ok (Options.NewEncoderFn o x) <-> window_ok o) /\
  (window_ok (Options.NewDecoderFn o x) <-> window_ok o) /\
  (window_ok (Options.NewBootstrapFn o x) <-> window_ok o) /\
  (window_ok (Options.BytesPool o x) <-> window_ok o) /\
  (window_ok (Options.ContextPool o x) <-> window_ok o) /\
  (window_ok (Options.DatabaseBlockPool o x) <-> window_ok o) /\
  (window_ok (Options.EncoderPool o x) <-> window_ok o) /\
  (window_ok (Options.SingleReaderIteratorPool o x) <-> window_ok o) /\
  (window_ok (Options.MultiReaderIteratorPool o x) <-> window_ok o) /\
  (window_ok (Options.NewFileSetWriterFn o x) <-> window_ok o).
Proof.
  split; [split; vm_compute; reflexivity|].
  repeat match goal with |- _ /\ _ => split end; reflexivity.
Qed.

(** * The further properties at concrete inputs *)

Lemma two_arrays_bytes : heap_bytes [[171; 205]; [160; 0; 0; 0; 0; 0; 0; 0]].
Proof.
  apply heap_bytes_Forall. repeat constructor; unfold is_byte; lia.
Defined.

Lemma two_arrays_slice_valid :
  slice_valid [[171; 205]; [160; 0; 0; 0; 0; 0; 0; 0]] (Slice (Some 0%nat) 0 2 2).
Proof. split; simpl; [lia|]. eexists. split; [reflexivity|]. simpl. lia. Defined.

Lemma two_arrays_reachable :
  reachable sample_growcap (Ostream (Slice (Some 1%nat) 0 1 8) 3 None)
    [[171; 205]; [160; 0; 0; 0; 0; 0; 0; 0]].
Proof.
  apply (reach_call sample_growcap (Ostream nil_slice 0 None) [[171; 205]]
           (CallWriteBits 5 3)).
  - apply (reach_new sample_growcap nil_slice false None [[171; 205]]).
    + exact sample_heap_bytes.
    + apply nil_slice_valid.
    + reflexivity.
  - simpl. unfold is_uint64, is_int. lia.
  - vm_compute. reflexivity.
Defined.

Lemma two_arrays_apart :
  apart [[171; 205]; [160; 0; 0; 0; 0; 0; 0; 0]]
    (Ostream (Slice (Some 1%nat) 0 1 8) 3 None) (Slice (Some 0%nat) 0 2 2).
Proof.
  split; [exact two_arrays_slice_valid|]. intros a Ha Hb. simpl in *. congruence.
Defined.

Lemma full_buffer_reachable :
  reachable sample_growcap (Ostream (Slice (Some 0%nat) 0 2 2) 8 None)
    [[171; 205]; [7; 9]].
Proof.
  apply (reach_new sample_growcap (Slice (Some 0%nat) 0 2 2) false None
           [[171; 205]; [7; 9]]).
  - apply heap_bytes_Forall. repeat constructor; unfold is_byte; lia.
  - split; simpl; [lia|]. eexists. split; [reflexivity|]. simpl. lia.
  - reflexivity.
Defined.

Lemma reachable_calls_append_witness :
  let h := [[171; 205]; [160; 0; 0; 0; 0; 0; 0; 0]] in
  let os := Ostream (Slice (Some 1%nat) 0 1 8) 3 None in
  let cs := [CallWriteBit 1; CallWriteBytes (Slice (Some 0%nat) 0 2 2);
             CallWriteBits 5 3] in
  reachable sample_growcap os h /\
  Forall call_typed cs /\ Forall (call_apart h os) cs /\
  exists os' h',
    run_calls sample_growcap cs os h = Ok (os', h') /\
    stream_bits h' os' = stream_bits h os ++ flat_map (requested h) cs /\
    reachable sample_growcap os' h'.
Proof.
  intros h os cs.
  assert (Forall call_typed cs) as Ht.
  { constructor; [simpl; unfold is_byte; lia|]. constructor; [exact I|].
    constructor; [simpl; unfold is_uint64, is_int; lia|constructor]. }
  assert (Forall (call_apart h os) cs) as Hap.
  { constructor; [exact I|]. constructor; [exact two_arrays_apart|].
    constructor; [exact I|constructor]. }
  split; [exact two_arrays_reachable|]. split; [exact Ht|]. split; [exact Hap|].
  exact (reachable_calls_append sample_growcap cs os h two_arrays_reachable Ht Hap).
Defined.

Lemma reachable_bit_count_witness :
  let os := Ostream (Slice (Some 0%nat) 0 1 8) 3 None in
  let h := [[160; 0; 0; 0; 0; 0; 0; 0]] in
  reachable sample_growcap os h /\
  Z.of_nat (length (stream_bits h os)) =
    (if Empty os then 0 else 8 * (Len os - 1) + pos os) /\
  (Empty os = true <-> stream_bits h os = []).
Proof.
  intros os h. split; [exact sample_reachable|].
  exact (reachable_bit_count sample_growcap os h sample_reachable).
Defined.

Lemma empty_stream_length_witness :
  let h := [[171; 205]] in
  let os := Ostream nil_slice 0 None in
  let cs := [CallWriteBit 1; CallWriteBits 5 3;
             CallWriteBytes (Slice (Some 0%nat) 0 2 2); CallWriteByte 255] in
  heap_bytes h /\ slice_valid h (rawBuffer os) /\ Empty os = true /\
  Forall call_typed cs /\
  exists os' h',
    run_calls sample_growcap cs os h = Ok (os', h') /\
    Len os' = (Z.of_nat (calls_nbits cs) + 7) / 8 /\
    pos os' = (if Z.of_nat (calls_nbits cs) =? 0 then 0
               else Z.of_nat (calls_nbits cs) - 8 * (Len os' - 1)).
Proof.
  intros h os cs.
  assert (Forall call_typed cs) as Ht.
  { constructor; [simpl; unfold is_byte; lia|].
    constructor; [simpl; unfold is_uint64, is_int; lia|].
    constructor; [exact I|].
    constructor; [simpl; unfold is_byte; lia|constructor]. }
  split; [exact sample_heap_bytes|]. split; [apply nil_slice_valid|].
  split; [reflexivity|]. split; [exact Ht|].
  exact (empty_stream_length sample_growcap cs os h sample_heap_bytes
           (nil_slice_valid h) eq_refl Ht).
Defined.

Lemma rawbytes_padding_zero_witness :
  let os := Ostream (Slice (Some 0%nat) 0 1 8) 3 None in
  let h := [[160; 0; 0; 0; 0; 0; 0; 0]] in
  reachable sample_growcap os h /\
  Forall is_byte (view h (Rawbytes os).1) /\
  forall l, last (view h (Rawbytes os).1) = Some l ->
    l mod 2 ^ (8 - (Rawbytes os).2) = 0.
Proof.
  intros os h. split; [exact sample_reachable|].
  exact (rawbytes_padding_zero sample_growcap os h sample_reachable).
Defined.

Lemma Reset_on_rawbytes_witness :
  let os := Ostream (Slice (Some 0%nat) 0 1 8) 3 None in
  let h := [[160; 0; 0; 0; 0; 0; 0; 0]] in
  reachable sample_growcap os h /\ Empty os = false /\
  stream_bits h (Reset os (Rawbytes os).1) =
    stream_bits h os ++ replicate (Z.to_nat (8 - pos os)) false /\
  reachable sample_growcap (Reset os (Rawbytes os).1) h.
Proof.
  intros os h. split; [exact sample_reachable|]. split; [reflexivity|].
  exact (Reset_on_rawbytes sample_growcap os h sample_reachable eq_refl).
Defined.

Lemma WriteBytes_as_WriteByte_calls_witness :
  let h := [[171; 205]; [160; 0; 0; 0; 0; 0; 0; 0]] in
  let os := Ostream (Slice (Some 1%nat) 0 1 8) 3 None in
  let bytes := Slice (Some 0%nat) 0 2 2 in
  good os h /\ apart h os bytes /\
  WriteBytes sample_growcap os bytes h =
  run_calls sample_growcap (map CallWriteByte (view h bytes)) os h.
Proof.
  intros h os bytes.
  pose proof (proj1 (reachable_good sample_growcap os h two_arrays_reachable))
    as Hg.
  split; [exact Hg|]. split; [exact two_arrays_apart|].
  exact (WriteBytes_as_WriteByte_calls sample_growcap os bytes h Hg
           two_arrays_apart).
Defined.

Lemma WriteBits_split_witness :
  let os := Ostream (Slice (Some 0%nat) 0 1 8) 3 None in
  let h := [[160; 0; 0; 0; 0; 0; 0; 0]] in
  reachable sample_growcap os h /\ is_uint64 1461 /\
  0 <= 6 /\ 0 <= 5 /\ 6 + 5 <= 64 /\
  exists os1 h1 os2 h2,
    WriteBits sample_growcap os 1461 (6 + 5) h = Ok (os1, h1) /\
    run_calls sample_growcap
      [CallWriteBits (Z.shiftr 1461 5) 6; CallWriteBits 1461 5] os h
      = Ok (os2, h2) /\
    stream_bits h1 os1 = stream_bits h2 os2.
Proof.
  intros os h.
  assert (is_uint64 1461) as Hv by (unfold is_uint64; lia).
  assert (0 <= 6) as Ha by lia. assert (0 <= 5) as Hb by lia.
  assert (6 + 5 <= 64) as Hab by lia.
  split; [exact sample_reachable|]. split; [exact Hv|]. split; [exact Ha|].
  split; [exact Hb|]. split; [exact Hab|].
  exact (WriteBits_split sample_growcap os 1461 6 5 h sample_reachable Hv Ha Hb Hab).
Defined.

Lemma calls_leave_other_slices_witness :
  let h := [[171; 205]; [160; 0; 0; 0; 0; 0; 0; 0]] in
  let os := Ostream (Slice (Some 1%nat) 0 1 8) 3 None in
  let s := Slice (Some 0%nat) 0 2 2 in
  let cs := [CallWriteBits 1023 10; CallWriteBytes s; CallWriteByte 255] in
  good os h /\ Forall call_typed cs /\ apart h os s /\
  exists os' h',
    run_calls sample_growcap cs os h = Ok (os', h') /\
    view h' s = view h s /\ apart h' os' s.
Proof.
  intros h os s cs.
  pose proof (proj1 (reachable_good sample_growcap os h two_arrays_reachable))
    as Hg.
  assert (Forall call_typed cs) as Ht.
  { constructor; [simpl; unfold is_uint64, is_int; lia|].
    constructor; [exact I|].
    constructor; [simpl; unfold is_byte; lia|constructor]. }
  split; [exact Hg|]. split; [exact Ht|]. split; [exact two_arrays_apart|].
  exact (calls_leave_other_slices sample_growcap cs os h s Hg Ht two_arrays_apart).
Defined.

Lemma committed_bytes_stay_witness :
  let os := Ostream (Slice (Some 0%nat) 0 1 8) 1 None in
  let h := [[128; 0; 0; 0; 0; 0; 0; 0]] in
  let cs := [CallWriteBits 1023 10; CallWriteByte 255] in
  good os h /\ Forall call_typed cs /\
  exists os' h',
    run_calls sample_growcap cs os h = Ok (os', h') /\
    Len os <= Len os' /\
    take (full os) (view h' (rawBuffer os')) =
      take (full os) (view h (rawBuffer os)).
Proof.
  intros os h cs.
  assert (Forall call_typed cs) as Ht.
  { constructor; [simpl; unfold is_uint64, is_int; lia|].
    constructor; [simpl; unfold is_byte; lia|constructor]. }
  split; [exact sample_good|]. split; [exact Ht|].
  exact (committed_bytes_stay sample_growcap cs os h sample_good Ht).
Defined.

Lemma writes_within_capacity_in_place_witness :
  let os := Ostream (Slice (Some 0%nat) 0 1 8) 1 None in
  let h := [[128; 0; 0; 0; 0; 0; 0; 0]] in
  good os h /\ is_byte 255 /\
  (len (rawBuffer os) < cap (rawBuffer os))%nat /\
  exists os1 h1 os2 h2,
    WriteByte sample_growcap os 255 h = Ok (os1, h1) /\
    WriteBit sample_growcap os 255 h = Ok (os2, h2) /\
    length h1 = length h /\ length h2 = length h /\
    rawBuffer os1 = Slice (base (rawBuffer os)) (off (rawBuffer os))
                      (S (len (rawBuffer os))) (cap (rawBuffer os)) /\
    base (rawBuffer os2) = base (rawBuffer os) /\
    off (rawBuffer os2) = off (rawBuffer os) /\
    cap (rawBuffer os2) = cap (rawBuffer os).
Proof.
  intros os h.
  assert (is_byte 255) as Hv by (unfold is_byte; lia).
  assert (len (rawBuffer os) < cap (rawBuffer os))%nat as Hlt by (simpl; lia).
  split; [exact sample_good|]. split; [exact Hv|]. split; [exact Hlt|].
  exact (writes_within_capacity_in_place sample_growcap os 255 h sample_good Hv Hlt).
Defined.

Lemma writes_at_capacity_move_witness :
  let os := Ostream (Slice (Some 0%nat) 0 2 2) 8 None in
  let h := [[171; 205]; [7; 9]] in
  good os h /\ is_byte 255 /\ hasUnusedBits os = false /\
  (cap (rawBuffer os) <= len (rawBuffer os))%nat /\
  exists os1 h1 os2 h2,
    WriteByte sample_growcap os 255 h = Ok (os1, h1) /\
    WriteBit sample_growcap os 255 h = Ok (os2, h2) /\
    base (rawBuffer os1) = Some (length h) /\ h `prefix_of` h1 /\
    base (rawBuffer os2) = Some (length h) /\ h `prefix_of` h2.
Proof.
  intros os h.
  pose proof (proj1 (reachable_good sample_growcap os h full_buffer_reachable))
    as Hg.
  assert (is_byte 255) as Hv by (unfold is_byte; lia).
  assert (cap (rawBuffer os) <= len (rawBuffer os))%nat as Hge by (simpl; lia).
  split; [exact Hg|]. split; [exact Hv|]. split; [reflexivity|].
  split; [exact Hge|].
  exact (writes_at_capacity_move sample_growcap os 255 h Hg Hv eq_refl Hge).
Defined.

Lemma NewOStream_spec_witness :
  let h := [[171; 205]] in
  let bytes := Slice (Some 0%nat) 0 2 2 in
  heap_bytes h /\ slice_valid h bytes /\
  exists os h',
    NewOStream bytes true None h = Ok (os, h') /\
    h `prefix_of` h' /\
    stream_bits h' os = flat_map byte_bits (view h bytes) /\
    (Empty os = true <-> len bytes = 0%nat) /\
    (if (cap bytes =? 0)%nat && true
     then cap (rawBuffer os) = initAllocSize /\
          base (rawBuffer os) = Some (length h)
     else rawBuffer os = bytes /\ h' = h).
Proof.
  intros h bytes.
  split; [exact sample_heap_bytes|]. split; [exact sample_slice_valid|].
  exact (NewOStream_spec bytes true None h sample_heap_bytes sample_slice_valid).
Defined.

Lemma clone_of_full_buffer_independent_witness :
  let os := Ostream (Slice (Some 0%nat) 0 2 2) 8 None in
  let h := [[171; 205]; [7; 9]] in
  let ws := [(false, CallWriteBit 0); (true, CallWriteBit 1);
             (false, CallWriteBytes (Slice (Some 1%nat) 0 2 2));
             (true, CallWriteBits 1023 10)] in
  reachable sample_growcap os h /\ hasUnusedBits os = false /\
  (cap (rawBuffer os) <= len (rawBuffer os))%nat /\
  Forall (fun w => call_typed w.2) ws /\
  Forall (fun w => call_apart h os w.2) ws /\
  exists s' c' h',
    run_two sample_growcap ws os (Clone os) h = Ok ((s', c'), h') /\
    stream_bits h' s' =
      stream_bits h os ++ flat_map (requested h) (calls_of true ws) /\
    stream_bits h' c' =
      stream_bits h os ++ flat_map (requested h) (calls_of false ws).
Proof.
  intros os h ws.
  assert (cap (rawBuffer os) <= len (rawBuffer os))%nat as Hge by (simpl; lia).
  assert (Forall (fun w => call_typed w.2) ws) as Ht.
  { constructor; [simpl; unfold is_byte; lia|].
    constructor; [simpl; unfold is_byte; lia|].
    constructor; [exact I|].
    constructor; [simpl; unfold is_uint64, is_int; lia|constructor]. }
  assert (Forall (fun w => call_apart h os w.2) ws) as Hap.
  { constructor; [exact I|]. constructor; [exact I|]. constructor.
    - split.
      + split; simpl; [lia|]. eexists. split; [reflexivity|]. simpl. lia.
      + intros a Ha Hb. simpl in *. congruence.
    - constructor; [exact I|constructor]. }
  split; [exact full_buffer_reachable|]. split; [reflexivity|].
  split; [exact Hge|]. split; [exact Ht|]. split; [exact Hap|].
  exact (clone_of_full_buffer_independent sample_growcap os h ws
           full_buffer_reachable eq_refl Hge Ht Hap).
Defined.
